(** * Browser helpers of the hackathon site: [static/app.js] and [static/map.js]

    A shallow embedding of the two scripts and the properties their
    behaviour contract states about them.

    Conventions of the model.
    - A JavaScript number is an IEEE 754 binary64 value: Rocq's primitive
      [float].
    - Text is well-formed Unicode held as its UTF-8 bytes in a Rocq
      [string].  The five characters the escaping function looks for, the
      [+] sign and the characters [encodeURIComponent] leaves alone are all
      ASCII, so working on bytes gives the same result as working on
      UTF-16 code units.  A string with an unpaired surrogate (on which
      [encodeURIComponent] raises [URIError]) has no counterpart here.
    - The DOM is a store of elements addressed by reference plus the
      document's index from identifiers to references, so that a closure
      holding an element keeps acting on that very element.
    - Leaflet is driven, not redefined: a map instance records the views it
      was given and the layers added to it. *)

From Stdlib Require Import Floats ZArith Ascii String List DecimalString.
From stdpp Require Import base option list strings gmap.

Set Warnings "-register-all,-inexact-float,-notation-for-abbreviation".

Local Open Scope string_scope.
Local Open Scope list_scope.

(** ** JavaScript values *)

Inductive jsval : Type :=
  | VUndef
  | VNull
  | VBool (b : bool)
  | VNum (x : float)
  | VStr (s : string)
  | VArr (elts : list jsval)
  | VObj (props : list (string * jsval)).

(** The double quote character, and a string put between two of them. *)
Definition dq : string := String "034"%char EmptyString.
Definition quoted (s : string) : string := dq +:+ s +:+ dq.
Definition nl : string := String "010"%char EmptyString.

(** [typeof v], as the string the operator returns. *)
Definition typeof (v : jsval) : string :=
  match v with
  | VUndef => "undefined"
  | VNull => "object"
  | VBool _ => "boolean"
  | VNum _ => "number"
  | VStr _ => "string"
  | VArr _ => "object"
  | VObj _ => "object"
  end.

(** [ToBoolean]: what [if (v)], [v ? a : b], [!v] and [v || w] test. *)
Definition ToBoolean (v : jsval) : bool :=
  match v with
  | VUndef | VNull => false
  | VBool b => b
  | VNum x => negb (PrimFloat.is_zero x || PrimFloat.is_nan x)
  | VStr s => negb (String.eqb s EmptyString)
  | VArr _ | VObj _ => true
  end.

(** [!o] for what is either an object or [null]. *)
Definition is_null {A} (o : option A) : bool :=
  match o with None => true | Some _ => false end.

(** [a || b] *)
Definition js_or (a b : jsval) : jsval := if ToBoolean a then a else b.

(** ** The page: DOM, timers and map instances *)

(** An element, as far as the scripts look at it: the [value] of an input
    and the tokens of [classList]. *)
Record element := Element { el_value : string; el_classList : list string }.

(** The callback of the one timer the scripts set:
    [() => box.classList.add(cls)], closed over the element [box]. *)
Inductive callback := AddClass (box : nat) (cls : string).

Record timer := Timer { tm_due : N; tm_callback : callback }.

Definition latlng : Type := float * float.

(** What a view was fitted to: the bounds of a drawn line (the library
    computes them from the path) or an array of points. *)
Inductive fit_target :=
  | BoundsOfLine (path : list jsval)
  | BoundsOfPoints (pts : list latlng).

Inductive Center :=
  | CenterUnset
  | CenterAt (c : latlng)
  | CenterOf (b : fit_target) (padding : float * float).

Inductive Zoom :=
  | ZoomUnset
  | ZoomAt (z : float)
  | ZoomFitting (b : fit_target) (padding : float * float).

Record View := mkView { v_center : Center; v_zoom : Zoom }.

Record Marker := mkMarker {
  mk_latlng : latlng;
  mk_draggable : bool;
  mk_popup : option string }.

Inductive Layer :=
  | TileLayer (url : string) (maxZoom : float) (attribution : string)
  | MarkerLayer (mk : Marker)
  | PolylineLayer (path : list jsval) (weight opacity : float).

(** A map instance: its container, the views it was given (oldest first)
    and its layers. *)
Record Lmap := mkLmap {
  lm_container : string;
  lm_views : list View;
  lm_layers : list Layer }.

Definition no_view : View := mkView CenterUnset ZoomUnset.

(** The view the instance is showing: the last one it was given. *)
Definition lm_view (m : Lmap) : View := default no_view (last (lm_views m)).

(** The page. [document] indexes the elements in the tree by identifier,
    [elements] is the store the references point into, [window_L] says
    whether the mapping library is loaded, [maps] holds the map instances
    made so far, [timers] the pending timers and [now] the clock. *)
Record world := World {
  document : gmap string nat;
  elements : gmap nat element;
  window_L : bool;
  maps : list Lmap;
  timers : list timer;
  now : N }.

(** *** Computations on the page: state and exceptions *)

Inductive completion (A : Type) :=
  | Normal (a : A)
  | Throws (err : string).
Arguments Normal {A} a.
Arguments Throws {A} err.

Definition M (A : Type) : Type := world -> completion A * world.

Definition ret {A} (a : A) : M A := fun w => (Normal a, w).
Definition throw {A} (err : string) : M A := fun w => (Throws err, w).
Definition bind {A B} (c : M A) (k : A -> M B) : M B :=
  fun w => match c w with
           | (Normal a, w') => k a w'
           | (Throws e, w') => (Throws e, w')
           end.
(** [try { c } catch (_) { h }]: what [c] did before it threw stays done. *)
Definition try_catch {A} (c : M A) (h : string -> M A) : M A :=
  fun w => match c w with
           | (Normal a, w') => (Normal a, w')
           | (Throws e, w') => h e w'
           end.
Definition get : M world := fun w => (Normal w, w).
Definition modify (f : world -> world) : M unit := fun w => (Normal tt, f w).

Notation "'let*' x := c 'in' k" := (bind c (fun x => k))
  (at level 10, x name, c at level 100, k at level 200).
Notation "c ;; k" := (bind c (fun _ => k))
  (at level 100, k at level 200, right associativity).

(** *** DOM operations *)

Definition getElementById (id : string) : M (option nat) :=
  let* w := get in ret (document w !! id).

Definition with_elements (f : gmap nat element -> gmap nat element) (w : world) : world :=
  World (document w) (f (elements w)) (window_L w) (maps w) (timers w) (now w).
Definition with_maps (f : list Lmap -> list Lmap) (w : world) : world :=
  World (document w) (elements w) (window_L w) (f (maps w)) (timers w) (now w).
Definition with_timers (f : list timer -> list timer) (w : world) : world :=
  World (document w) (elements w) (window_L w) (maps w) (f (timers w)) (now w).
Definition with_now (t : N) (w : world) : world :=
  World (document w) (elements w) (window_L w) (maps w) (timers w) t.

(** [el.value = s] *)
Definition set_value (el : nat) (s : string) : M unit :=
  modify (with_elements (alter (fun e => Element s (el_classList e)) el)).

(** [el.classList.contains(cls)] *)
Definition classList_contains (el : nat) (cls : string) : M bool :=
  let* w := get in
  ret (match elements w !! el with
       | Some e => bool_decide (cls ∈ el_classList e)
       | None => false
       end).

(** [el.classList.add(cls)]: a token already there is not added again. *)
Definition add_token (cls : string) (l : list string) : list string :=
  if bool_decide (cls ∈ l) then l else l ++ [cls].
Definition classList_add (el : nat) (cls : string) : world -> world :=
  with_elements (alter (fun e => Element (el_value e) (add_token cls (el_classList e))) el).

(** Timers are kept in the order they fire: by due time, and in the order
    they were set among those due at the same time. *)
Fixpoint insert_timer (tm : timer) (l : list timer) : list timer :=
  match l with
  | [] => [tm]
  | x :: l' => if (tm_due tm <? tm_due x)%N then tm :: l else x :: insert_timer tm l'
  end.

(** [setTimeout(cb, ms)] *)
Definition setTimeout (cb : callback) (ms : N) : M unit :=
  modify (fun w => with_timers (insert_timer (Timer (now w + ms) cb)) w).

Definition run_callback (cb : callback) : world -> world :=
  match cb with AddClass box cls => classList_add box cls end.

(** The event loop up to time [t]: the clock moves to [t], the timers due
    by then run, each once, and leave the pending list. *)
Definition advance_to (t : N) (w : world) : world :=
  let due := filter (fun tm => (tm_due tm <= t)%N) (timers w) in
  let later := filter (fun tm => ¬ (tm_due tm <= t)%N) (timers w) in
  foldl (fun w tm => run_callback (tm_callback tm) w)
        (with_now (N.max (now w) t) (with_timers (fun _ => later) w)) due.

(** *** Leaflet, as the scripts drive it *)

Definition tile_url : string := "https://{s}.tile.openstreetmap.org/{z}/{x}/{y}.png".

(** [L.map(id)]: a new instance, with no view yet; its handle is returned. *)
Definition L_map (id : string) : M nat :=
  let* w := get in
  modify (with_maps (fun ms => ms ++ [mkLmap id [] []])) ;;
  ret (length (maps w)).

Definition on_map (map : nat) (f : Lmap -> Lmap) : M unit :=
  modify (with_maps (alter f map)).

Definition with_view (v : View) (m : Lmap) : Lmap :=
  mkLmap (lm_container m) (lm_views m ++ [v]) (lm_layers m).
Definition with_layers (f : list Layer -> list Layer) (m : Lmap) : Lmap :=
  mkLmap (lm_container m) (lm_views m) (f (lm_layers m)).

(** [map.setView(c, z)] *)
Definition setView (map : nat) (c : latlng) (z : float) : M unit :=
  on_map map (with_view (mkView (CenterAt c) (ZoomAt z))).

(** [map.fitBounds(b, { padding })] *)
Definition fitBounds (map : nat) (b : fit_target) (padding : float * float) : M unit :=
  on_map map (with_view (mkView (CenterOf b padding) (ZoomFitting b padding))).

(** [map.panTo(c)]: the centre moves, the zoom stays. *)
Definition panTo (map : nat) (c : latlng) : M unit :=
  on_map map (fun m => with_view (mkView (CenterAt c) (v_zoom (lm_view m))) m).

(** [layer.addTo(map)]: the layer's place among the map's layers is returned. *)
Definition addTo (map : nat) (l : Layer) : M nat :=
  let* w := get in
  match maps w !! map with
  | Some m => on_map map (with_layers (fun ls => ls ++ [l])) ;; ret (length (lm_layers m))
  | None => throw "TypeError"
  end.

Definition on_marker (f : Marker -> Marker) (l : Layer) : Layer :=
  match l with MarkerLayer mk => MarkerLayer (f mk) | _ => l end.

(** [marker.setLatLng(p)] *)
Definition marker_setLatLng (map marker : nat) (p : latlng) : M unit :=
  on_map map (with_layers (alter (on_marker (fun mk =>
    mkMarker p (mk_draggable mk) (mk_popup mk))) marker)).

(** [marker.bindPopup(html)] *)
Definition bindPopup (map marker : nat) (html : string) : M unit :=
  on_map map (with_layers (alter (on_marker (fun mk =>
    mkMarker (mk_latlng mk) (mk_draggable mk) (Some html))) marker)).

(** [marker.getLatLng()] *)
Definition marker_getLatLng (map marker : nat) : M latlng :=
  let* w := get in
  match maps w !! map ≫= (fun m => lm_layers m !! marker) with
  | Some (MarkerLayer mk) => ret (mk_latlng mk)
  | _ => throw "TypeError"
  end.

(** ** The arguments of the two initializers *)

(** A marker descriptor; a property the object does not have reads as
    [VUndef]. *)
Record descriptor := Descriptor {
  lat : jsval;
  lng : jsval;
  name : jsval;
  route : jsval;
  maps_url : jsval;
  phone_whatsapp : jsval }.

(** The options object; [None] and [VUndef] stand for a property left out,
    for which the destructuring default applies. *)
Record options := Options {
  mapId : string;
  latInputId : option string;
  lngInputId : option string;
  markers : option (list descriptor);
  path : jsval;
  startLat : option float;
  startLng : option float;
  zoom : option float }.

(** [document.getElementById(id)] with an identifier left out looks for the
    text of [undefined]. *)
Definition id_text (id : option string) : string := default "undefined" id.

(** The closure the picker's handlers share. *)
Record picker := Picker {
  p_map : nat;
  p_marker : nat;
  p_latInput : option nat;
  p_lngInput : option nat }.

Inductive picker_event :=
  | MapClick (e_lat e_lng : float)
  | MarkerDragEnd (dropped_at : latlng).

Section Host.

(** [Number::toString] of the host (the shortest decimal text that reads
    back as the same number): taken as given. *)
Variable Number_toString : float -> string.

(** [String(v)] and the conversion of [${v}] in a template literal. An array
    prints its elements separated by commas, [null] and [undefined] as
    nothing; a plain object prints as [[object Object]]. *)
Fixpoint ToString (v : jsval) : string :=
  match v with
  | VUndef => "undefined"
  | VNull => "null"
  | VBool true => "true"
  | VBool false => "false"
  | VNum x => Number_toString x
  | VStr s => s
  | VArr elts =>
      (fix join (l : list jsval) : string :=
         match l with
         | [] => EmptyString
         | e :: l' =>
             (match e with VUndef | VNull => EmptyString | _ => ToString e end)
             +:+ (match l' with [] => EmptyString | _ => "," +:+ join l' end)
         end) elts
  | VObj _ => "[object Object]"
  end.

(** *** [String.prototype.replace] *)

(** [s.replace(/[...]/g, fn)]: every character of the class is replaced by
    the text of what [fn] returns for it; the others are kept. *)
Fixpoint replace_class_g (cls : ascii -> bool) (fn : string -> jsval)
    (s : string) : string :=
  match s with
  | EmptyString => EmptyString
  | String c s' =>
      (if cls c then ToString (fn (String c EmptyString))
       else String c EmptyString) +:+ replace_class_g cls fn s'
  end.

(** [Some rest] when [s] is [pat] followed by [rest]. *)
Fixpoint strip_prefix (pat s : string) : option string :=
  match pat, s with
  | EmptyString, _ => Some s
  | String p pat', String c s' =>
      if Ascii.eqb p c then strip_prefix pat' s' else None
  | String _ _, EmptyString => None
  end.

(** [s.replace(pat, by)] with a string pattern: only the first occurrence
    is replaced. *)
Fixpoint replace_first (pat by_ : string) (s : string) : string :=
  match strip_prefix pat s with
  | Some rest => by_ +:+ rest
  | None =>
      match s with
      | EmptyString => EmptyString
      | String c s' => String c (replace_first pat by_ s')
      end
  end.

(** ** [escapeHtml] *)

(** The object literal of the callback, and [table[c]]. *)
Definition entities : list (string * jsval) :=
  [ ("&", VStr "&amp;");
    ("<", VStr "&lt;");
    (">", VStr "&gt;");
    (dq, VStr "&quot;");
    ("'", VStr "&#039;") ].

Fixpoint get_prop (o : list (string * jsval)) (k : string) : jsval :=
  match o with
  | [] => VUndef
  | (k', v) :: o' => if String.eqb k' k then v else get_prop o' k
  end.

(** The character class of the pattern: ampersand, less-than, greater-than,
    double quote, apostrophe. *)
Definition reserved (c : ascii) : bool :=
  (Ascii.eqb c "&" || Ascii.eqb c "<" || Ascii.eqb c ">"
   || Ascii.eqb c "034" || Ascii.eqb c "'")%char.

Definition escapeHtml (str : jsval) : string :=
  replace_class_g reserved (fun c => get_prop entities c) (ToString str).

(** ** [encodeURIComponent] *)

(** The characters left as they are: letters, digits and [- _ . ! ~ * ' ( )]. *)
Definition uri_unreserved (c : ascii) : bool :=
  let n := N_of_ascii c in
  ((65 <=? n) && (n <=? 90) || (97 <=? n) && (n <=? 122)
   || (48 <=? n) && (n <=? 57)
   || Ascii.eqb c "-" || Ascii.eqb c "_" || Ascii.eqb c "." || Ascii.eqb c "!"
   || Ascii.eqb c "~" || Ascii.eqb c "*" || Ascii.eqb c "'" || Ascii.eqb c "("
   || Ascii.eqb c ")")%N.

Definition hex_digit (n : N) : ascii :=
  (if n <? 10 then ascii_of_N (48 + n) else ascii_of_N (55 + n))%N.

(** One octet as a percent sign and two upper-case hexadecimal digits. *)
Definition percent_octet (c : ascii) : string :=
  let n := N_of_ascii c in
  String "%" (String (hex_digit (n / 16)) (String (hex_digit (n mod 16)) EmptyString)).

Fixpoint encodeURIComponent (s : string) : string :=
  match s with
  | EmptyString => EmptyString
  | String c s' =>
      (if uri_unreserved c then String c EmptyString else percent_octet c)
      +:+ encodeURIComponent s'
  end.

(** ** [Number.prototype.toFixed] *)

(** The decimal digits of a natural number, most significant first. *)
Definition decimal_digits (n : Z) : list ascii :=
  list_ascii_of_string (NilEmpty.string_of_uint (N.to_uint (Z.to_N n))).

(** The integer [n] with [n / 10^f] nearest to [m * 2^e], the larger one of
    two equally near. *)
Definition nearest_scaled (m : positive) (e : Z) (f : nat) : Z :=
  let num := (Z.pos m * 10 ^ Z.of_nat f)%Z in
  if (0 <=? e)%Z then (num * 2 ^ e)%Z
  else let d := (2 ^ (- e))%Z in ((2 * num + d) / (2 * d))%Z.

(** [10^21 <= m * 2^e] *)
Definition at_least_1e21 (m : positive) (e : Z) : bool :=
  if (0 <=? e)%Z then (10 ^ 21 <=? Z.pos m * 2 ^ e)%Z
  else (10 ^ 21 * 2 ^ (- e) <=? Z.pos m)%Z.

(** The digits of [n] with a point before the last [f] of them, zeros put
    in front when there are not more than [f] digits. *)
Definition point_before_last (f : nat) (n : Z) : string :=
  let m := decimal_digits n in
  if Nat.eqb f 0 then string_of_list_ascii m
  else
    let m := if (length m <=? f)%nat then replicate (f + 1 - length m) "0"%char ++ m
             else m in
    let k := length m in
    string_of_list_ascii (take (k - f) m ++ "."%char :: drop (k - f) m).

Definition toFixed (x : float) (fractionDigits : nat) : string :=
  match Prim2SF x with
  | S754_nan | S754_infinity _ => Number_toString x
  | S754_zero _ => point_before_last fractionDigits 0
  | S754_finite sign m e =>
      (if sign then "-" else EmptyString)
      +:+ (if at_least_1e21 m e then Number_toString (PrimFloat.abs x)
           else point_before_last fractionDigits (nearest_scaled m e fractionDigits))
  end.

(** ** [static/map.js] *)

(** What the library does with a path, which the script only guards
    against: whether [L.polyline(path, ..).addTo(map)] completes, and what
    [line.getBounds()] followed by the test [lb && lb.isValid()] gives
    ([Throws] when either call throws). *)
Variable polyline_accepts : list jsval -> bool.
Variable line_bounds_valid : list jsval -> completion bool.

Definition default_startLat : float := (-1.8312)%float.
Definition default_startLng : float := (-78.1834)%float.
Definition default_zoom : float := 6%float.

Definition osm_tiles : Layer := TileLayer tile_url 19%float "&copy; OpenStreetMap".

(** *** [initPickerMap] *)

(** The inner function [setLatLng(lat, lng)]. *)
Definition setLatLng (pk : picker) (lat lng : float) : M unit :=
  (match p_latInput pk with
   | Some latInput => set_value latInput (ToString (VStr (toFixed lat 6)))
   | None => ret tt
   end) ;;
  (match p_lngInput pk with
   | Some lngInput => set_value lngInput (ToString (VStr (toFixed lng 6)))
   | None => ret tt
   end) ;;
  marker_setLatLng (p_map pk) (p_marker pk) (lat, lng) ;;
  panTo (p_map pk) (lat, lng).

(** The initializer returns nothing to its caller; the model hands back the
    closure its two handlers were registered with, [None] when it returned
    at the guard. *)
Definition initPickerMap (opts : options) : M (option picker) :=
  let startLat := default default_startLat (startLat opts) in
  let startLng := default default_startLng (startLng opts) in
  let zoom := default default_zoom (zoom opts) in
  let* latInput := getElementById (id_text (latInputId opts)) in
  let* lngInput := getElementById (id_text (lngInputId opts)) in
  let* mapEl := getElementById (mapId opts) in
  let* w := get in
  if is_null mapEl || negb (window_L w) then ret None
  else
    let* map := L_map (mapId opts) in
    setView map (startLat, startLng) zoom ;;
    addTo map osm_tiles ;;
    let* marker := addTo map (MarkerLayer (mkMarker (startLat, startLng) true None)) in
    let pk := Picker map marker latInput lngInput in
    setLatLng pk startLat startLng ;;
    ret (Some pk).

(** The handlers of [click] on the map and of [dragend] on the marker. By
    the time [dragend] is delivered the library has left the marker where
    it was dropped; the handler reads that position back. *)
Definition handle (pk : picker) (ev : picker_event) : M unit :=
  match ev with
  | MapClick e_lat e_lng => setLatLng pk e_lat e_lng
  | MarkerDragEnd dropped_at =>
      marker_setLatLng (p_map pk) (p_marker pk) dropped_at ;;
      let* p := marker_getLatLng (p_map pk) (p_marker pk) in
      setLatLng pk (fst p) (snd p)
  end.

(** *** The popup of [initPublicMap] *)

Definition cat (parts : list string) : string :=
  foldr String.append EmptyString parts.

Fixpoint sp (n : nat) : string :=
  match n with O => EmptyString | S n' => String " " (sp n') end.

Definition link_style : string :=
  "style="
  +:+ quoted "font-size:12px;padding:6px 10px;border:1px solid #e2e8f0;border-radius:10px;text-decoration:none;"
  +:+ ">".

(** The inner template of the external map link. *)
Definition maps_link (m : descriptor) : string :=
  if ToBoolean (maps_url m) then
    cat [ "<a href="; dq; ToString (maps_url m); dq; " target="; quoted "_blank"; nl;
          sp 15; link_style; nl;
          sp 15; "Maps"; nl;
          sp 12; "</a>" ]
  else EmptyString.

(** The inner template of the messaging link. *)
Definition whatsapp_link (m : descriptor) : string :=
  if ToBoolean (phone_whatsapp m) then
    cat [ "<a href="; dq; "https://wa.me/";
          replace_first "+" EmptyString (ToString (phone_whatsapp m)); dq;
          " target="; quoted "_blank"; nl;
          sp 15; link_style; nl;
          sp 15; "WhatsApp"; nl;
          sp 12; "</a>" ]
  else EmptyString.

Definition listings_link (m : descriptor) : string :=
  cat [ "<a href="; dq; "/listings?route=";
        encodeURIComponent (ToString (js_or (route m) (VStr EmptyString))); dq; nl;
        sp 15; link_style; nl;
        sp 15; "Ver lugares"; nl;
        sp 12; "</a>" ].

(** The template literal, from its opening backquote to the three links
    and from them to its closing backquote. *)
Definition popup_opening (m : descriptor) : string :=
  cat [ nl;
        sp 8; "<div style="; quoted "min-width:220px"; ">"; nl;
        sp 10; "<div style="; quoted "font-weight:700"; ">";
          escapeHtml (js_or (name m) (VStr "Negocio")); "</div>"; nl;
        sp 10; "<div style="; quoted "font-size:12px;color:#64748b"; ">";
          escapeHtml (js_or (route m) (VStr EmptyString)); "</div>"; nl;
        sp 10; "<div style="; quoted "margin-top:8px;display:flex;gap:6px;flex-wrap:wrap"; ">"; nl;
        sp 12 ].

Definition popup_closing : string :=
  cat [ nl;
        sp 10; "</div>"; nl;
        sp 8; "</div>"; nl;
        sp 6 ].

Definition popup (m : descriptor) : string :=
  cat [ popup_opening m;
        listings_link m; nl;
        sp 12; maps_link m; nl;
        sp 12; whatsapp_link m;
        popup_closing ].

(** *** [initPublicMap] *)

Definition fit_padding : float * float := (30%float, 30%float).

(** The guarded block that draws the path. *)
Definition draw_path (map : nat) (pts : list jsval) : M unit :=
  try_catch
    (if polyline_accepts pts then
       addTo map (PolylineLayer pts 4%float 0.85%float) ;;
       match line_bounds_valid pts with
       | Throws e => throw e
       | Normal true => fitBounds map (BoundsOfLine pts) fit_padding
       | Normal false => ret tt
       end
     else throw "Error")
    (fun _ => ret tt).

(** The body of the callback of [markers.forEach]; [bounds] is the array
    it pushes to. *)
Definition place_marker (map : nat) (m : descriptor) (bounds : list latlng)
  : M (list latlng) :=
  if negb (String.eqb (typeof (lat m)) "number")
     || negb (String.eqb (typeof (lng m)) "number")
  then ret bounds
  else
    match lat m, lng m with
    | VNum m_lat, VNum m_lng =>
        let* marker := addTo map (MarkerLayer (mkMarker (m_lat, m_lng) false None)) in
        bindPopup map marker (popup m) ;;
        ret (bounds ++ [(m_lat, m_lng)])
    | _, _ => ret bounds
    end.

Fixpoint forEach_marker (map : nat) (ms : list descriptor) (bounds : list latlng)
  : M (list latlng) :=
  match ms with
  | [] => ret bounds
  | m :: ms' =>
      let* bounds' := place_marker map m bounds in
      forEach_marker map ms' bounds'
  end.

Definition initPublicMap (opts : options) : M unit :=
  let markers := default [] (markers opts) in
  let path := match path opts with VUndef => VArr [] | p => p end in
  let startLat := default default_startLat (startLat opts) in
  let startLng := default default_startLng (startLng opts) in
  let zoom := default default_zoom (zoom opts) in
  let* mapEl := getElementById (mapId opts) in
  let* w := get in
  if is_null mapEl || negb (window_L w) then ret tt
  else
    let* map := L_map (mapId opts) in
    setView map (startLat, startLng) zoom ;;
    addTo map osm_tiles ;;
    (* [Array.isArray(path) && path.length >= 2] *)
    (match path with
     | VArr pts => if (2 <=? length pts)%nat then draw_path map pts else ret tt
     | _ => ret tt
     end) ;;
    let* bounds := forEach_marker map markers [] in
    (if (2 <=? length bounds)%nat
     then fitBounds map (BoundsOfPoints bounds) fit_padding else ret tt) ;;
    (if (length bounds =? 1)%nat
     then match bounds !! 0%nat with
          | Some b0 => setView map b0 14%float
          | None => throw "TypeError"
          end
     else ret tt).

(** *** What the picker keeps in step *)

Fixpoint handle_all (pk : picker) (evs : list picker_event) : M unit :=
  match evs with
  | [] => ret tt
  | ev :: evs' => handle pk ev ;; handle_all pk evs'
  end.

(** Where an event leaves the marker, and where a run of events does. *)
Definition event_position (ev : picker_event) : latlng :=
  match ev with
  | MapClick e_lat e_lng => (e_lat, e_lng)
  | MarkerDragEnd dropped_at => dropped_at
  end.

Definition last_position (start : latlng) (evs : list picker_event) : latlng :=
  default start (last (event_position <$> evs)).

Definition field_value (input : option nat) (w : world) : option string :=
  input ≫= fun el => el_value <$> elements w !! el.

(** The picker's closure points at what it should: its map has the tile
    layer and one marker, draggable, and its two fields are elements of the
    page. *)
Definition wired (pk : picker) (w : world) : Prop :=
  exists mp mk a b,
    maps w !! p_map pk = Some mp
    /\ lm_layers mp = [osm_tiles; MarkerLayer mk]
    /\ p_marker pk = 1%nat
    /\ mk_draggable mk = true
    /\ p_latInput pk = Some a /\ is_Some (elements w !! a)
    /\ p_lngInput pk = Some b /\ is_Some (elements w !! b).

(** The picker's map has the tile layer and one marker, draggable; the
    marker stands at [p], the view is centred on [p], and the two fields
    hold the coordinates of [p] as [toFixed(6)] prints them. *)
Definition synced (pk : picker) (p : latlng) (w : world) : Prop :=
  exists mp mk,
    maps w !! p_map pk = Some mp
    /\ lm_layers mp = [osm_tiles; MarkerLayer mk]
    /\ p_marker pk = 1%nat
    /\ mk_draggable mk = true
    /\ mk_latlng mk = p
    /\ v_center (lm_view mp) = CenterAt p
    /\ field_value (p_latInput pk) w = Some (toFixed (fst p) 6)
    /\ field_value (p_lngInput pk) w = Some (toFixed (snd p) 6).

(** *** What [initPublicMap] amounts to *)

(** The positions of the descriptors whose two coordinates are numbers,
    and the marker layers placed for them, in the order of the array. *)
Definition numeric (m : descriptor) : option latlng :=
  match lat m, lng m with
  | VNum x, VNum y => Some (x, y)
  | _, _ => None
  end.

Definition valid_points (ms : list descriptor) : list latlng :=
  omap numeric ms.

Definition marker_layers (ms : list descriptor) : list Layer :=
  omap (fun m => (fun p => MarkerLayer (mkMarker p false (Some (popup m)))) <$> numeric m) ms.

(** The options with another array of descriptors. *)
Definition with_markers (ms : list descriptor) (o : options) : options :=
  Options (mapId o) (latInputId o) (lngInputId o) (Some ms) (path o)
          (startLat o) (startLng o) (zoom o).

(** Whether the path block is entered: [path] is an array of two or more. *)
Definition path_given (o : options) : bool :=
  match path o with
  | VArr pts => (2 <=? length pts)%nat
  | _ => false
  end.

(** The view asked for at construction. *)
Definition start_view (o : options) : View :=
  mkView (CenterAt (default default_startLat (startLat o),
                    default default_startLng (startLng o)))
         (ZoomAt (default default_zoom (zoom o))).

Definition fitted (b : fit_target) : View :=
  mkView (CenterOf b fit_padding) (ZoomFitting b fit_padding).

(** The view and the layer the path block leaves behind. *)
Definition path_views (o : options) : list View :=
  match path o with
  | VArr pts =>
      if (2 <=? length pts)%nat && polyline_accepts pts then
        match line_bounds_valid pts with
        | Normal true => [fitted (BoundsOfLine pts)]
        | _ => []
        end
      else []
  | _ => []
  end.

Definition path_layers (o : options) : list Layer :=
  match path o with
  | VArr pts =>
      if (2 <=? length pts)%nat && polyline_accepts pts
      then [PolylineLayer pts 4%float 0.85%float] else []
  | _ => []
  end.

(** The views the two statements after the loop ask for. *)
Definition marker_views (pts : list latlng) : list View :=
  (if (2 <=? length pts)%nat then [fitted (BoundsOfPoints pts)] else [])
  ++ match pts with
     | [p] => [mkView (CenterAt p) (ZoomAt 14%float)]
     | _ => []
     end.

(** The map instance a call that passes the guard leaves on the page. *)
Definition public_map (o : options) : Lmap :=
  let ms := default [] (markers o) in
  mkLmap (mapId o)
         (start_view o :: path_views o ++ marker_views (valid_points ms))
         (osm_tiles :: path_layers o ++ marker_layers ms).

End Host.

(** ** [static/app.js] *)

(** [autoHide(id, ms)] *)
Definition autoHide (id : string) (ms : N) : M unit :=
  let* box := getElementById id in
  match box with
  | None => ret tt
  | Some box =>
      let* hidden := classList_contains box "hidden" in
      if hidden then ret tt
      else setTimeout (AddClass box "hidden") ms
  end.

(** The statement of the script that uses it. (The two statements before
    it, the autofocus and the registration of the click listener, touch
    neither a class list nor a timer.) *)
Definition app_js : M unit := autoHide "successBox" 8000.


(** ** Notions the properties are stated with *)

(** A number [toFixed] prints in plain decimal: finite and below [10^21]
    in magnitude. *)
Definition plain_range (x : float) : bool :=
  match Prim2SF x with
  | S754_zero _ => true
  | S754_finite _ m e => negb (at_least_1e21 m e)
  | _ => false
  end.

Definition is_digit (c : ascii) : bool :=
  ((48 <=? N_of_ascii c) && (N_of_ascii c <=? 57))%N.

(** An optional minus sign, one or more digits, a point, six digits. *)
Definition six_decimals (s : string) : Prop :=
  exists (sign : string) (a b : list ascii),
    s = sign +:+ string_of_list_ascii (a ++ "."%char :: b)
    /\ (sign = EmptyString \/ sign = "-")
    /\ a <> []
    /\ length b = 6%nat
    /\ forallb is_digit (a ++ b) = true.

(** Every character of [s] passes [ok]. *)
Fixpoint all_chars (ok : ascii -> bool) (s : string) : bool :=
  match s with
  | EmptyString => true
  | String c s' => ok c && all_chars ok s'
  end.

(** What percent-encoded text is made of: the characters left alone and the
    percent sign (the hexadecimal digits are among the former). *)
Definition uri_safe (c : ascii) : bool := uri_unreserved c || Ascii.eqb c "%".


(** The class list of [box] holds [cls]. *)
Definition has_class (box : nat) (cls : string) (w : world) : Prop :=
  exists elt, elements w !! box = Some elt /\ cls ∈ el_classList elt.

(** [s] holds [sub] somewhere. *)
Fixpoint contains (sub s : string) : bool :=
  if String.prefix sub s then true
  else match s with
       | EmptyString => false
       | String _ s' => contains sub s'
       end.

(** ** The links of a markup text *)


Definition anchor_open : string := "<a href=" +:+ dq.

(** The text of [s] up to its first double quote. *)
Fixpoint until_quote (s : string) : string :=
  match s with
  | EmptyString => EmptyString
  | String c s' =>
      if Ascii.eqb c "034" then EmptyString else String c (until_quote s')
  end.

(** The links a markup text holds, each by its target, in the order of the
    text: wherever an anchor opens with its [href], the value up to the
    closing double quote. *)
Fixpoint hrefs (s : string) : list string :=
  match s with
  | EmptyString => []
  | String _ s' =>
      match strip_prefix anchor_open s with
      | Some value => [until_quote value]
      | None => []
      end ++ hrefs s'
  end.




(** ** A sample page *)

(** A host whose numbers all print as 0, and a library that draws every
    path and finds its bounds valid: stand-ins to run the scripts on. *)
Definition sample_toString (x : float) : string := "0".
Definition draws_all (pts : list jsval) : bool := true.
Definition bounds_all (pts : list jsval) : completion bool := Normal true.

(** A page with a map container, two coordinate fields and a visible
    success banner, the library loaded, no map made yet, no timer set. *)
Definition sample_page : world :=
  World {[ "map" := 0%nat; "lat" := 1%nat; "lng" := 2%nat; "successBox" := 3%nat ]}
        {[ 0%nat := Element EmptyString [];
           1%nat := Element EmptyString [];
           2%nat := Element EmptyString [];
           3%nat := Element EmptyString ["alert"] ]}
        true [] [] 0.

(** The same page before the library has loaded. *)
Definition page_without_library : world :=
  World (document sample_page) (elements sample_page) false [] [] 0.

Definition picker_options : options :=
  Options "map" (Some "lat") (Some "lng") None VUndef None None None.

Definition shop (x y : float) : descriptor :=
  Descriptor (VNum x) (VNum y) (VStr "Tienda <1>") (VStr "ruta & costa")
             (VStr "https://maps.example/t1") (VStr "+593987654321").

(** A descriptor whose latitude is text. *)
Definition no_latitude : descriptor :=
  Descriptor (VStr "-1.5") (VNum (-78)%float) (VStr "Sin latitud") VUndef VUndef VUndef.


Definition public_options (ms : list descriptor) (p : jsval) : options :=
  Options "map" None None (Some ms) p None None None.

Definition sample_line : list jsval :=
  [ VArr [VNum (-1)%float; VNum (-78)%float];
    VArr [VNum (-2)%float; VNum (-79)%float] ].

(** ** The escaping rule, as the contract words it *)

(** The entity of each of the five reserved characters; any other character
    stands for itself. *)
Definition entity (c : ascii) : string :=
  if Ascii.eqb c "&" then "&amp;"
  else if Ascii.eqb c "<" then "&lt;"
  else if Ascii.eqb c ">" then "&gt;"
  else if Ascii.eqb c "034" then "&quot;"
  else if Ascii.eqb c "'" then "&#039;"
  else String c EmptyString.

Fixpoint escape_text (s : string) : string :=
  match s with
  | EmptyString => EmptyString
  | String c s' => entity c +:+ escape_text s'
  end.

Fixpoint occurs (c : ascii) (s : string) : bool :=
  match s with
  | EmptyString => false
  | String c' s' => Ascii.eqb c c' || occurs c s'
  end.

(** Reading escaped text back, the way an HTML parser reads character data:
    an ampersand must open one of the five entities and stands for its
    character; a bare reserved character is refused. *)
Fixpoint unescape_fuel (n : nat) (s : string) : option string :=
  match s with
  | EmptyString => Some EmptyString
  | String c s' =>
      match n with
      | O => None
      | S n' =>
          if Ascii.eqb c "&" then
            match strip_prefix "amp;" s' with
            | Some r => String "&"%char <$> unescape_fuel n' r
            | None =>
            match strip_prefix "lt;" s' with
            | Some r => String "<"%char <$> unescape_fuel n' r
            | None =>
            match strip_prefix "gt;" s' with
            | Some r => String ">"%char <$> unescape_fuel n' r
            | None =>
            match strip_prefix "quot;" s' with
            | Some r => String "034"%char <$> unescape_fuel n' r
            | None =>
            match strip_prefix "#039;" s' with
            | Some r => String "'"%char <$> unescape_fuel n' r
            | None => None
            end end end end end
          else if reserved c then None
          else String c <$> unescape_fuel n' s'
      end
  end.

Definition unescapeHtml (s : string) : option string :=
  unescape_fuel (String.length s) s.

(** * The rest of the two scripts *)

From Stdlib Require Import QArith Qabs DecimalN.
Close Scope Q_scope.

(** ** [static/app.js]: the tree of the page *)

(** The autofocus and the click listener look at the tree, not at
    identifiers: an element has a tag (in lower case), attributes and
    children; an element is named by the path of child indices that leads
    to it from the root. *)
Inductive node :=
  | Node (tag : string) (attrs : list (string * string)) (children : list node).

Definition node_tag (n : node) : string := match n with Node t _ _ => t end.
Definition node_attrs (n : node) : list (string * string) :=
  match n with Node _ a _ => a end.
Definition node_children (n : node) : list node :=
  match n with Node _ _ k => k end.

Fixpoint node_at (n : node) (p : list nat) : option node :=
  match p with
  | [] => Some n
  | i :: p' => node_children n !! i ≫= fun k => node_at k p'
  end.

(** [el.getAttribute(name)]: [None] is [null]. *)
Fixpoint getAttribute (attrs : list (string * string)) (name : string)
  : option string :=
  match attrs with
  | [] => None
  | (k, v) :: attrs' => if String.eqb k name then Some v else getAttribute attrs' name
  end.

(** *** Autofocus *)

Definition is_form_control (tag : string) : bool :=
  String.eqb tag "input" || String.eqb tag "select" || String.eqb tag "textarea".

Definition is_form (tag : string) : bool := String.eqb tag "form".

(** [querySelector] with the selector of the script, a form control below
    a form: the search goes through the tree in document order (an element
    before its children, the children from first to last) and stops at the
    first match. [in_form] says whether an ancestor is a form. *)
Fixpoint query_form_control (in_form : bool) (n : node) : option (list nat) :=
  match n with
  | Node tag _ kids =>
      if in_form && is_form_control tag then Some []
      else
        (fix among (ks : list node) : option (list nat) :=
           match ks with
           | [] => None
           | k :: ks' =>
               match query_form_control (in_form || is_form tag) k with
               | Some p => Some (0%nat :: p)
               | None =>
                   match among ks' with
                   | Some (i :: p) => Some (S i :: p)
                   | _ => None
                   end
               end
           end) kids
  end.

(** The search among the children of an element, as [query_form_control]
    runs it. *)
Definition among_children (in_form : bool) : list node -> option (list nat) :=
  fix among (ks : list node) : option (list nat) :=
    match ks with
    | [] => None
    | k :: ks' =>
        match query_form_control in_form k with
        | Some p => Some (0%nat :: p)
        | None =>
            match among ks' with
            | Some (i :: p) => Some (S i :: p)
            | _ => None
            end
        end
    end.

(** The element at [p] is a form control with a form among its proper
    ancestors. *)
Fixpoint matches_form_control (in_form : bool) (n : node) (p : list nat) : bool :=
  match p with
  | [] => in_form && is_form_control (node_tag n)
  | i :: p' =>
      match node_children n !! i with
      | Some k => matches_form_control (in_form || is_form (node_tag n)) k p'
      | None => false
      end
  end.

(** Document order on paths: an element comes before its descendants and
    before whatever follows it. *)
Fixpoint doc_before (p q : list nat) : bool :=
  match p, q with
  | [], _ :: _ => true
  | i :: p', j :: q' => (i <? j)%nat || ((i =? j)%nat && doc_before p' q')
  | _, _ => false
  end.

(** What a call of [focus()] does, which is the browser's to say: it moves
    the focus to the element; it returns and moves nothing (an element that
    cannot take the focus: hidden, disabled, not rendered); or it throws. *)
Inductive focus_outcome := Focused | NotFocusable | FocusThrows.

(** The first statement of the script: [focus()] on the first match, if
    any; a failure of [focus()] is caught. The result is the elements
    [focus()] was called on and the element that has the focus afterwards. *)
Definition autofocus (focus : list nat -> focus_outcome) (tree : node)
    (active : option (list nat)) : list (list nat) * option (list nat) :=
  match query_form_control false tree with
  | Some firstInput =>
      ([firstInput],
       match
         match focus firstInput with
         | Focused => Normal (Some firstInput)
         | NotFocusable => Normal active
         | FocusThrows => Throws "Error"
         end
       with
       | Normal a => a
       | Throws _ => active
       end)
  | None => ([], active)
  end.

(** *** The click listener *)

Record click := Click {
  target : list nat;
  defaultPrevented : bool;
  propagationStopped : bool }.

(** The target and its ancestors, the target first. *)
Fixpoint chain_to (n : node) (p : list nat) (above : list node) : option (list node) :=
  match p with
  | [] => Some (n :: above)
  | i :: p' => node_children n !! i ≫= fun k => chain_to k p' (n :: above)
  end.

Definition has_confirm (n : node) : bool :=
  bool_decide (is_Some (getAttribute (node_attrs n) "data-confirm")).

(** [el.closest("[data-confirm]")] on a chain. *)
Fixpoint closest_confirm (chain : list node) : option node :=
  match chain with
  | [] => None
  | n :: chain' => if has_confirm n then Some n else closest_confirm chain'
  end.

Definition default_prompt : string := "¿Seguro?".

(** [el.getAttribute("data-confirm") || "¿Seguro?"] *)
Definition prompt_of (el : node) : string :=
  match getAttribute (node_attrs el) "data-confirm" with
  | Some msg => if String.eqb msg EmptyString then default_prompt else msg
  | None => default_prompt
  end.

(** The listener. [confirm] is what the user answers to a prompt; the
    result is the prompts shown and the event as the listener leaves it. *)
Definition on_click (confirm : string -> bool) (tree : node) (e : click)
  : list string * click :=
  match chain_to tree (target e) [] ≫= closest_confirm with
  | None => ([], e)
  | Some el =>
      let msg := prompt_of el in
      let ok := confirm msg in
      if negb ok then ([msg], Click (target e) true true)
      else ([msg], e)
  end.

(** ** Notions for the further properties *)

Fixpoint count_char (c : ascii) (s : string) : nat :=
  match s with
  | EmptyString => 0
  | String c' s' => (if Ascii.eqb c c' then 1 else 0) + count_char c s'
  end.

Definition hex_value (c : ascii) : option N :=
  let n := N_of_ascii c in
  (if (48 <=? n) && (n <=? 57) then Some (n - 48)
   else if (65 <=? n) && (n <=? 70) then Some (n - 55)
   else if (97 <=? n) && (n <=? 102) then Some (n - 87)
   else None)%N.

(** Reading percent-encoded text back octet by octet, the way
    [decodeURIComponent] does before it decodes UTF-8. *)
Fixpoint percent_decode (s : string) : option string :=
  match s with
  | EmptyString => Some EmptyString
  | String c s' =>
      if Ascii.eqb c "%" then
        match s' with
        | String h (String l rest) =>
            match hex_value h, hex_value l with
            | Some a, Some b =>
                String (ascii_of_N (16 * a + b)) <$> percent_decode rest
            | _, _ => None
            end
        | _ => None
        end
      else String c <$> percent_decode s'
  end.

(** The number of millionths a text with six decimals stands for: the
    digits without the point, with the sign. *)
Definition millionths (s : string) : option Z :=
  let '(negative, body) :=
    match s with
    | String c s' => if Ascii.eqb c "-" then (true, s') else (false, s)
    | EmptyString => (false, s)
    end in
  let digits := filter (fun c => c <> "."%char) (list_ascii_of_string body) in
  (fun u => if negative then (- Z.of_N (N.of_uint u))%Z else Z.of_N (N.of_uint u))
    <$> NilEmpty.uint_of_string (string_of_list_ascii digits).

(** The rational number a finite float is: plus or minus [m * 2^e]. *)
Definition rational (x : float) : Q :=
  match Prim2SF x with
  | S754_finite sign m e =>
      let v := if (0 <=? e)%Z then Qmake (Z.pos m * 2 ^ e) 1
               else Qmake (Z.pos m) (Z.to_pos (2 ^ (- e))) in
      if sign then Qopp v else v
  | _ => Qmake 0 1
  end.

(** The test of the loop in the claim's words: both coordinates have the
    type number; and the pair [[m.lat, m.lng]] of a descriptor that
    passes it. *)
Definition typeof_number (m : descriptor) : bool :=
  String.eqb (typeof (lat m)) "number" && String.eqb (typeof (lng m)) "number".

Definition number_of (v : jsval) : float :=
  match v with VNum x => x | _ => nan end.

Definition coordinates (m : descriptor) : latlng :=
  (number_of (lat m), number_of (lng m)).

Definition layer_marker (l : Layer) : option Marker :=
  match l with MarkerLayer mk => Some mk | _ => None end.

Definition is_polyline (l : Layer) : bool :=
  match l with PolylineLayer _ _ _ => true | _ => false end.

(** [el.value = s] on a field that may be missing. *)
Definition write_field (input : option nat) (s : string)
    (e : gmap nat element) : gmap nat element :=
  match input with
  | Some el => alter (fun elt => Element s (el_classList elt)) el e
  | None => e
  end.

(** What [setLatLng] makes of the picker's map. *)
Definition moved_to (pk : picker) (p : latlng) (mp : Lmap) : Lmap :=
  let mp1 := with_layers (alter (on_marker (fun mk =>
               mkMarker p (mk_draggable mk) (mk_popup mk))) (p_marker pk)) mp in
  with_view (mkView (CenterAt p) (v_zoom (lm_view mp1))) mp1.

(** Two pages that differ at most in the picker's map and in the values of
    its two fields. *)
Definition only_picker_changed (pk : picker) (w w' : world) : Prop :=
  document w' = document w
  /\ window_L w' = window_L w
  /\ timers w' = timers w
  /\ now w' = now w
  /\ length (maps w') = length (maps w)
  /\ (forall i, i <> p_map pk -> maps w' !! i = maps w !! i)
  /\ (forall el, Some el <> p_latInput pk -> Some el <> p_lngInput pk ->
        elements w' !! el = elements w !! el)
  /\ (forall el, el_classList <$> elements w' !! el
                 = el_classList <$> elements w !! el).

(** A character that is none of the five reserved ones. *)
Definition clean (c : ascii) : bool := negb (reserved c).

(** The descriptor with no property at all. *)
Definition blank : descriptor :=
  Descriptor VUndef VUndef VUndef VUndef VUndef VUndef.

(** The picker's map is on the page with the tile layer and one marker,
    draggable, and shows something at zoom [z]. *)
Definition placed (pk : picker) (z : float) (w : world) : Prop :=
  exists mp mk,
    maps w !! p_map pk = Some mp
    /\ lm_layers mp = [osm_tiles; MarkerLayer mk]
    /\ p_marker pk = 1%nat
    /\ mk_draggable mk = true
    /\ v_zoom (lm_view mp) = ZoomAt z.

(** The picker's map has the tile layer and one marker, draggable, at [p];
    it shows [p] at zoom [z]; the longitude field, if it is on the page,
    holds the longitude of [p], and the latitude field, if it is on the
    page and is another element, holds its latitude. [h] is the host's
    [Number::toString]. *)
Definition follows (h : float -> string) (pk : picker) (z : float)
    (p : latlng) (w : world) : Prop :=
  exists mp mk,
    maps w !! p_map pk = Some mp
    /\ lm_layers mp = [osm_tiles; MarkerLayer mk]
    /\ p_marker pk = 1%nat
    /\ mk_draggable mk = true
    /\ mk_latlng mk = p
    /\ lm_view mp = mkView (CenterAt p) (ZoomAt z)
    /\ (forall el elt, p_lngInput pk = Some el -> elements w !! el = Some elt ->
          el_value elt = toFixed h (snd p) 6)
    /\ (forall el elt, p_latInput pk = Some el -> p_lngInput pk <> Some el ->
          elements w !! el = Some elt -> el_value elt = toFixed h (fst p) 6).

(** [autoHide] called twice in a row. *)
Definition autoHide_twice (id : string) (ms : N) : M unit :=
  autoHide id ms ;; autoHide id ms.

(** A page with a form inside a section, a search box outside any form
    before it, and a delete button with a prompt inside a row that has a
    prompt of its own. *)
Definition sample_tree : node :=
  Node "body" []
    [ Node "input" [("name", "q")] [];
      Node "section" []
        [ Node "form" []
            [ Node "label" [] [];
              Node "div" [] [Node "select" [("name", "route")] []];
              Node "input" [("name", "phone")] [] ] ];
      Node "div" [("data-confirm", "Borrar fila")]
        [ Node "button" [("data-confirm", EmptyString)] [Node "span" [] []];
          Node "a" [] [] ] ].

(** A browser for which the select of the sample page cannot take the
    focus (it is hidden, say) and every other element can. *)
Definition select_not_focusable (p : list nat) : focus_outcome :=
  match p with
  | [1; 0; 1; 0]%nat => NotFocusable
  | _ => Focused
  end.

(** A descriptor whose name and route carry markup, with neither map URL
    nor phone. *)
Definition hostile_shop : descriptor :=
  Descriptor (VNum 0%float) (VNum 0%float)
             (VStr "<b>Tienda</b>") (VStr ("ruta " +:+ dq +:+ "><i>")) VUndef VUndef.

(** The sample page with a second map container. *)
Definition two_container_page : world :=
  World (<["map2" := 4%nat]> (document sample_page))
        (<[4%nat := Element EmptyString []]> (elements sample_page))
        true [] [] 0.

(** Options naming no field, and options naming one element for both. *)
Definition no_field_options : options :=
  Options "map" None None None VUndef None None None.
Definition one_field_options : options :=
  Options "map" (Some "lat") (Some "lat") None VUndef None None None.

(** The sample page with one more element, whose identifier is the text
    [undefined], and options that name only the longitude field. *)
Definition page_with_undefined : world :=
  World (<["undefined" := 4%nat]> (document sample_page))
        (<[4%nat := Element EmptyString ["note"]]> (elements sample_page))
        true [] [] 0.
Definition longitude_only_options : options :=
  Options "map" None (Some "lng") None VUndef None None None.

(** Descriptors at not-a-number and at the infinities, with one whose
    latitude is text between them. *)
Definition unusual_numbers : list descriptor :=
  [shop nan infinity; no_latitude; shop neg_infinity 0].
Definition unusual_options : options :=
  Options "map" None None (Some unusual_numbers) VUndef None None None.

(** * Properties *)

#[local] Arguments String.append : simpl nomatch.

Section HostFacts.

Variable Number_toString : float -> string.

Notation ToString := (ToString Number_toString).
Notation escapeHtml := (escapeHtml Number_toString).

(** ** Escaping *)

Lemma reserved_cases (c : ascii) :
  reserved c = true ->
  c = "&"%char \/ c = "<"%char \/ c = ">"%char \/ c = "034"%char \/ c = "'"%char.
Proof.
  unfold reserved. rewrite !orb_true_iff, !Ascii.eqb_eq. tauto.
Qed.

Lemma entity_not_reserved (c : ascii) :
  reserved c = false -> entity c = String c EmptyString.
Proof.
  unfold reserved, entity. rewrite !orb_false_iff.
  intros [[[[-> ->] ->] ->] ->]. reflexivity.
Qed.

(** The pattern and the table of the callback agree with the rule
    character by character. *)
Lemma replace_class_g_entities (s : string) :
  replace_class_g Number_toString reserved (fun c => get_prop entities c) s
  = escape_text s.
Proof.
  induction s as [|c s IH]; [reflexivity|].
  cbn [replace_class_g escape_text]. rewrite IH. f_equal.
  destruct (reserved c) eqn:Hc.
  - apply reserved_cases in Hc.
    destruct Hc as [-> | [-> | [-> | [-> | ->]]]]; reflexivity.
  - symmetry. by apply entity_not_reserved.
Qed.

Lemma occurs_app (c : ascii) (s t : string) :
  occurs c (s +:+ t) = occurs c s || occurs c t.
Proof.
  induction s as [|c' s IH]; simpl; [reflexivity|].
  rewrite IH. by rewrite orb_assoc.
Qed.

Lemma entity_clean (c d : ascii) :
  reserved d = true -> d <> "&"%char -> occurs d (entity c) = false.
Proof.
  intros Hd Hamp. apply reserved_cases in Hd.
  destruct (reserved c) eqn:Hc.
  - apply reserved_cases in Hc.
    destruct Hc as [-> | [-> | [-> | [-> | ->]]]];
      destruct Hd as [-> | [-> | [-> | [-> | ->]]]]; done.
  - rewrite (entity_not_reserved _ Hc). simpl. rewrite orb_false_r.
    apply Ascii.eqb_neq. intros <-.
    destruct Hd as [-> | [-> | [-> | [-> | ->]]]]; done.
Qed.

Lemma escape_text_clean (d : ascii) (s : string) :
  reserved d = true -> d <> "&"%char -> occurs d (escape_text s) = false.
Proof.
  intros Hd Hamp. induction s as [|c s IH]; [reflexivity|].
  cbn [escape_text]. rewrite occurs_app, IH, orb_false_r.
  by apply entity_clean.
Qed.

Lemma length_app_string (s t : string) :
  String.length (s +:+ t) = (String.length s + String.length t)%nat.
Proof. induction s as [|c s IH]; simpl; [reflexivity|by rewrite IH]. Qed.

Lemma unescape_escape_fuel (s : string) (n : nat) :
  (String.length (escape_text s) <= n)%nat ->
  unescape_fuel n (escape_text s) = Some s.
Proof.
  revert n. induction s as [|c s IH]; intros n Hn; [by destruct n|].
  cbn [escape_text] in *. rewrite length_app_string in Hn.
  destruct (reserved c) eqn:Hc.
  - apply reserved_cases in Hc.
    destruct Hc as [-> | [-> | [-> | [-> | ->]]]];
      (destruct n as [|n]; [simpl in Hn; lia|]);
      simpl in Hn |- *; rewrite IH by lia; reflexivity.
  - rewrite (entity_not_reserved _ Hc) in *.
    destruct n as [|n]; [simpl in Hn; lia|].
    simpl in Hn |- *. rewrite Hc.
    destruct (Ascii.eqb c "&") eqn:Hamp.
    + apply Ascii.eqb_eq in Hamp. subst c. discriminate Hc.
    + rewrite IH by lia. reflexivity.
Qed.

(** C2. For every value, [escapeHtml] works on the text of the value
    ([String(str)]) and puts, for each of the five reserved characters, its
    entity: the result holds no less-than, greater-than, double quote or
    apostrophe at all, every ampersand in it opens one of the five
    entities, and reading the entities back gives the text of the value
    unchanged, so that no other character was altered. *)
Theorem escapeHtml_replaces_reserved (v : jsval) :
  escapeHtml v = escape_text (ToString v)
  /\ occurs "<" (escapeHtml v) = false
  /\ occurs ">" (escapeHtml v) = false
  /\ occurs "034" (escapeHtml v) = false
  /\ occurs "'" (escapeHtml v) = false
  /\ unescapeHtml (escapeHtml v) = Some (ToString v).
Proof.
  assert (He : escapeHtml v = escape_text (ToString v))
    by apply replace_class_g_entities.
  rewrite He. repeat split; try (by apply escape_text_clean).
  by apply unescape_escape_fuel.
Qed.

(** ** Running the Leaflet operations *)

Variable polyline_accepts : list jsval -> bool.
Variable line_bounds_valid : list jsval -> completion bool.

Notation popup := (popup Number_toString).
Notation place_marker := (place_marker Number_toString).
Notation forEach_marker := (forEach_marker Number_toString).
Notation marker_layers := (marker_layers Number_toString).
Notation initPickerMap := (initPickerMap Number_toString).
Notation initPublicMap :=
  (initPublicMap Number_toString polyline_accepts line_bounds_valid).
Notation public_map :=
  (public_map Number_toString polyline_accepts line_bounds_valid).
Notation draw_path := (draw_path polyline_accepts line_bounds_valid).

Lemma alter_as_insert {A} (f : A -> A) (l : list A) (i : nat) (x : A) :
  l !! i = Some x -> alter f i l = <[i := f x]> l.
Proof.
  revert i. induction l as [|y l IH]; intros [|i] Hi; simplify_eq/=; try done.
  f_equal. by apply IH.
Qed.

Lemma lookup_insert_here {A} (l : list A) (i : nat) (x y : A) :
  l !! i = Some x -> <[i := y]> l !! i = Some y.
Proof. intros Hi. apply list_lookup_insert_eq. by eapply lookup_lt_Some. Qed.

Section OnOneMap.

Variables (d : gmap string nat) (e : gmap nat element) (L : bool)
          (ts : list timer) (n : N).

Lemma run_on_map (ms : list Lmap) (map : nat) (mp : Lmap) (f : Lmap -> Lmap) :
  ms !! map = Some mp ->
  on_map map f (World d e L ms ts n)
  = (Normal tt, World d e L (<[map := f mp]> ms) ts n).
Proof.
  intros Hmp. unfold on_map, modify, with_maps. simpl.
  by rewrite (alter_as_insert _ _ _ _ Hmp).
Qed.

Lemma run_addTo (ms : list Lmap) (map : nat) (mp : Lmap) (l : Layer) :
  ms !! map = Some mp ->
  addTo map l (World d e L ms ts n)
  = (Normal (length (lm_layers mp)),
     World d e L (<[map := with_layers (fun ls => ls ++ [l]) mp]> ms) ts n).
Proof.
  intros Hmp. unfold addTo, bind, get. cbn [maps]. rewrite Hmp.
  by rewrite (run_on_map _ _ _ _ Hmp).
Qed.

Lemma run_bindPopup_last (ms : list Lmap) (map : nat) (mp : Lmap)
    (mk : Marker) (html : string) :
  ms !! map = Some (with_layers (fun ls => ls ++ [MarkerLayer mk]) mp) ->
  bindPopup map (length (lm_layers mp)) html (World d e L ms ts n)
  = (Normal tt,
     World d e L
       (<[map := with_layers (fun ls => ls ++
           [MarkerLayer (mkMarker (mk_latlng mk) (mk_draggable mk) (Some html))]) mp]> ms)
       ts n).
Proof.
  intros Hmp. unfold bindPopup. rewrite (run_on_map _ _ _ _ Hmp).
  do 3 f_equal. unfold with_layers. simpl. f_equal.
  rewrite <- (Nat.add_0_r (length (lm_layers mp))).
  by rewrite alter_app_r.
Qed.

Lemma numeric_typeof (m : descriptor) :
  numeric m = None <->
  typeof (lat m) <> "number" \/ typeof (lng m) <> "number".
Proof.
  unfold numeric. destruct (lat m), (lng m); simpl; split; intros H;
    try done; try (by left); try (by right); by destruct H.
Qed.

Lemma run_place_marker_skip (map : nat) (m : descriptor) (b : list latlng) (w : world) :
  numeric m = None -> place_marker map m b w = (Normal b, w).
Proof.
  unfold numeric, place_marker. destruct (lat m), (lng m); by simpl.
Qed.

Lemma run_place_marker (ms : list Lmap) (map : nat) (mp : Lmap)
    (m : descriptor) (p : latlng) (b : list latlng) :
  numeric m = Some p -> ms !! map = Some mp ->
  place_marker map m b (World d e L ms ts n)
  = (Normal (b ++ [p]),
     World d e L
       (<[map := with_layers (fun ls => ls ++
           [MarkerLayer (mkMarker p false (Some (popup m)))]) mp]> ms) ts n).
Proof.
  intros Hnum Hmp. unfold numeric, place_marker in *.
  destruct (lat m) as [| | | x | | |], (lng m) as [| | | y | | |];
    simplify_eq/=.
  unfold bind at 1. rewrite (run_addTo _ _ _ _ Hmp).
  unfold bind. erewrite run_bindPopup_last by (by eapply lookup_insert_here).
  by rewrite list_insert_insert_eq.
Qed.

Lemma with_layers_nil (mp : Lmap) : with_layers (fun ls => ls ++ []) mp = mp.
Proof. destruct mp. unfold with_layers. simpl. by rewrite app_nil_r. Qed.

Lemma with_layers_app (mp : Lmap) (l1 l2 : list Layer) :
  with_layers (fun ls => ls ++ l2) (with_layers (fun ls => ls ++ l1) mp)
  = with_layers (fun ls => ls ++ l1 ++ l2) mp.
Proof. unfold with_layers. simpl. by rewrite app_assoc. Qed.

Lemma run_forEach_marker (l : list descriptor) (ms : list Lmap) (map : nat)
    (mp : Lmap) (b : list latlng) :
  ms !! map = Some mp ->
  forEach_marker map l b (World d e L ms ts n)
  = (Normal (b ++ valid_points l),
     World d e L
       (<[map := with_layers (fun ls => ls ++ marker_layers l) mp]> ms) ts n).
Proof.
  revert ms mp b. induction l as [|m l IH]; intros ms mp b Hmp.
  - simpl. unfold ret. rewrite with_layers_nil, app_nil_r.
    by rewrite list_insert_id.
  - cbn [forEach_marker]. unfold bind.
    unfold valid_points, marker_layers. cbn [omap list_omap].
    destruct (numeric m) as [p|] eqn:Hnum.
    + rewrite (run_place_marker _ _ _ _ _ _ Hnum Hmp).
      erewrite IH by (by eapply lookup_insert_here).
      rewrite list_insert_insert_eq, with_layers_app, <- app_assoc.
      reflexivity.
    + rewrite (run_place_marker_skip _ _ _ _ Hnum).
      by rewrite (IH _ _ _ Hmp).
Qed.

Lemma insert_snoc {A} (l : list A) (x y : A) :
  <[length l := y]> (l ++ [x]) = l ++ [y].
Proof.
  rewrite <- (Nat.add_0_r (length l)). by rewrite insert_app_r.
Qed.

Lemma lookup_snoc {A} (l : list A) (x : A) : (l ++ [x]) !! length l = Some x.
Proof. by rewrite list_lookup_middle. Qed.

Lemma run_bind {A B} (c : M A) (k : A -> M B) (w w' : world) (a : A) :
  c w = (Normal a, w') -> bind c k w = k a w'.
Proof. intros Hc. unfold bind. by rewrite Hc. Qed.

Lemma run_on_last (ms : list Lmap) (mp : Lmap) (f : Lmap -> Lmap) :
  on_map (length ms) f (World d e L (ms ++ [mp]) ts n)
  = (Normal tt, World d e L (ms ++ [f mp]) ts n).
Proof. by rewrite (run_on_map _ _ _ _ (lookup_snoc ms mp)), insert_snoc. Qed.

Lemma run_addTo_last (ms : list Lmap) (mp : Lmap) (l : Layer) :
  addTo (length ms) l (World d e L (ms ++ [mp]) ts n)
  = (Normal (length (lm_layers mp)),
     World d e L (ms ++ [with_layers (fun ls => ls ++ [l]) mp]) ts n).
Proof. by rewrite (run_addTo _ _ _ _ (lookup_snoc ms mp)), insert_snoc. Qed.

Lemma run_forEach_last (l : list descriptor) (ms : list Lmap) (mp : Lmap) :
  forEach_marker (length ms) l [] (World d e L (ms ++ [mp]) ts n)
  = (Normal (valid_points l),
     World d e L (ms ++ [with_layers (fun ls => ls ++ marker_layers l) mp]) ts n).
Proof. by rewrite (run_forEach_marker _ _ _ _ _ (lookup_snoc ms mp)), insert_snoc. Qed.

Lemma run_L_map (ms : list Lmap) (id : string) :
  L_map id (World d e L ms ts n)
  = (Normal (length ms), World d e L (ms ++ [mkLmap id [] []]) ts n).
Proof. reflexivity. Qed.

(** The path block: whatever the library does with the path, the block
    completes; it leaves the line when the library took it, and the fitted
    view when, besides, the line had valid bounds. *)
Lemma run_path_stage (o : options) (ms : list Lmap) (mp : Lmap) :
  match (match path o with VUndef => VArr [] | p => p end) with
  | VArr pts => if (2 <=? length pts)%nat then draw_path (length ms) pts else ret tt
  | _ => ret tt
  end (World d e L (ms ++ [mp]) ts n)
  = (Normal tt,
     World d e L
       (ms ++ [mkLmap (lm_container mp)
                 (lm_views mp ++ path_views polyline_accepts line_bounds_valid o)
                 (lm_layers mp ++ path_layers polyline_accepts o)]) ts n).
Proof.
  assert (Hsame : mkLmap (lm_container mp) (lm_views mp ++ []) (lm_layers mp ++ []) = mp)
    by (destruct mp; simpl; by rewrite !app_nil_r).
  unfold path_views, path_layers.
  destruct (path o) as [| | | | | pts |]; try (by cbn; rewrite Hsame).
  destruct (2 <=? length pts)%nat; [|by cbn; rewrite Hsame]. cbn [andb].
  unfold draw_path, try_catch.
  destruct (polyline_accepts pts); [|by cbn; rewrite Hsame].
  rewrite (run_bind _ _ _ _ _ (run_addTo_last _ _ _)).
  destruct (line_bounds_valid pts) as [[|]|err].
  - unfold fitBounds. by rewrite run_on_last.
  - unfold ret, with_layers. simpl. by rewrite app_nil_r.
  - unfold throw, ret, with_layers. simpl. by rewrite app_nil_r.
Qed.

(** The two statements after the loop. *)
Lemma run_marker_stage (pts : list latlng) (ms : list Lmap) (mp : Lmap) :
  ((if (2 <=? length pts)%nat
    then fitBounds (length ms) (BoundsOfPoints pts) fit_padding else ret tt) ;;
   (if (length pts =? 1)%nat
    then match pts !! 0%nat with
         | Some b0 => setView (length ms) b0 14%float
         | None => throw "TypeError"
         end
    else ret tt)) (World d e L (ms ++ [mp]) ts n)
  = (Normal tt,
     World d e L
       (ms ++ [mkLmap (lm_container mp) (lm_views mp ++ marker_views pts)
                 (lm_layers mp)]) ts n).
Proof.
  assert (Hsame : mkLmap (lm_container mp) (lm_views mp ++ []) (lm_layers mp) = mp)
    by (destruct mp; simpl; by rewrite !app_nil_r).
  unfold marker_views.
  destruct pts as [|p [|q pts]]; simpl.
  - unfold bind, ret. by rewrite Hsame.
  - unfold bind, ret, setView. by rewrite run_on_last.
  - unfold bind, ret, fitBounds. by rewrite run_on_last.
Qed.

End OnOneMap.

Lemma run_getElementById (id : string) (w : world) :
  getElementById id w = (Normal (document w !! id), w).
Proof. reflexivity. Qed.

Lemma run_get (w : world) : get w = (Normal w, w).
Proof. reflexivity. Qed.

(** A call that passes the guard completes, and all it does to the page is
    to add the instance [public_map]. *)
Lemma initPublicMap_run (o : options) (w : world) (el : nat) :
  document w !! mapId o = Some el -> window_L w = true ->
  initPublicMap o w = (Normal tt, with_maps (fun ms => ms ++ [public_map o]) w).
Proof.
  destruct w as [d e L ms ts n]. cbn [document window_L]. intros Hel ->.
  unfold initPublicMap, with_maps.
  rewrite (run_bind _ _ _ _ _ (run_getElementById _ _)).
  rewrite (run_bind _ _ _ _ _ (run_get _)).
  cbn [document window_L maps elements timers now]. rewrite Hel.
  cbn [is_null negb orb].
  rewrite (run_bind _ _ _ _ _ (run_L_map _ _ _ _ _ _ _)).
  unfold setView at 1.
  rewrite (run_bind _ _ _ _ _ (run_on_last _ _ _ _ _ _ _ _)).
  rewrite (run_bind _ _ _ _ _ (run_addTo_last _ _ _ _ _ _ _ _)).
  rewrite (run_bind _ _ _ _ _ (run_path_stage _ _ _ _ _ _ _ _)).
  rewrite (run_bind _ _ _ _ _ (run_forEach_last _ _ _ _ _ _ _ _)).
  rewrite run_marker_stage. reflexivity.
Qed.

(** A call that fails the guard returns at once. *)
Lemma initPublicMap_guard (o : options) (w : world) :
  document w !! mapId o = None \/ window_L w = false ->
  initPublicMap o w = (Normal tt, w).
Proof.
  intros Hg. unfold initPublicMap.
  unfold bind at 1, getElementById, bind at 1, get, ret. simpl.
  unfold bind at 1. simpl.
  destruct Hg as [-> | ->]; simpl; [done|by rewrite orb_true_r].
Qed.

Lemma initPickerMap_guard (o : options) (w : world) :
  document w !! mapId o = None \/ window_L w = false ->
  initPickerMap o w = (Normal None, w).
Proof.
  intros Hg. unfold initPickerMap, getElementById, get, bind, ret. simpl.
  destruct Hg as [-> | ->]; simpl; [done|by rewrite orb_true_r].
Qed.

(** ** The public map *)

Lemma forEach_marker_skip (ms1 ms2 : list descriptor) (m : descriptor)
    (map : nat) (b : list latlng) (w : world) :
  numeric m = None ->
  forEach_marker map (ms1 ++ m :: ms2) b w = forEach_marker map (ms1 ++ ms2) b w.
Proof.
  intros Hskip. revert b w. induction ms1 as [|m1 ms1 IH]; intros b w.
  - cbn [app forEach_marker]. unfold bind.
    by rewrite (run_place_marker_skip _ _ _ _ Hskip).
  - cbn [app forEach_marker]. unfold bind.
    destruct (place_marker map m1 b w) as [[b'|err] w']; [apply IH|done].
Qed.

Lemma valid_points_skip (ms1 ms2 : list descriptor) (m : descriptor) :
  numeric m = None -> valid_points (ms1 ++ m :: ms2) = valid_points (ms1 ++ ms2).
Proof.
  intros Hskip. unfold valid_points. rewrite !omap_app. cbn [omap list_omap].
  by rewrite Hskip.
Qed.

Lemma marker_layers_skip (ms1 ms2 : list descriptor) (m : descriptor) :
  numeric m = None -> marker_layers (ms1 ++ m :: ms2) = marker_layers (ms1 ++ ms2).
Proof.
  intros Hskip. unfold marker_layers. rewrite !omap_app. cbn [omap list_omap].
  by rewrite Hskip.
Qed.

(** C3. A descriptor whose latitude or longitude is not a number changes
    nothing: the callback returns with the page and the bounds array as they
    were (no marker, no bounds entry), the loop over an array holding it
    does what it does over the array without it, and so does the whole of
    [initPublicMap]. *)
Theorem non_numeric_descriptor_is_skipped
    (o : options) (ms1 ms2 : list descriptor) (m : descriptor) (w : world) :
  typeof (lat m) <> "number" \/ typeof (lng m) <> "number" ->
  (forall map b w', place_marker map m b w' = (Normal b, w'))
  /\ (forall map b w',
        forEach_marker map (ms1 ++ m :: ms2) b w'
        = forEach_marker map (ms1 ++ ms2) b w')
  /\ initPublicMap (with_markers (ms1 ++ m :: ms2) o) w
     = initPublicMap (with_markers (ms1 ++ ms2) o) w.
Proof.
  intros Hskip. apply numeric_typeof in Hskip. split; [|split].
  - intros map b w'. by apply run_place_marker_skip.
  - intros map b w'. by apply forEach_marker_skip.
  - destruct (document w !! mapId o) as [el|] eqn:Hel;
      [destruct (window_L w) eqn:HL|].
    + rewrite !(initPublicMap_run _ _ el) by done.
      unfold public_map, path_views, path_layers, start_view, with_markers.
      cbn [markers path mapId startLat startLng zoom default from_option id].
      by rewrite valid_points_skip, marker_layers_skip.
    + rewrite !initPublicMap_guard by (by right). done.
    + rewrite !initPublicMap_guard by (by left). done.
Qed.

(** C4. A call that passes the guard completes and adds one map instance to
    the page. With two or more descriptors of numeric coordinates that
    instance ends fitted to their positions with a padding of 30 on each
    side; with exactly one it ends centred on it at zoom 14; with none, and
    no path of two or more points given, the only view it was ever given is
    the configured start position and zoom. *)
Theorem initPublicMap_final_view (o : options) (w : world) (el : nat) :
  document w !! mapId o = Some el -> window_L w = true ->
  exists mp,
    initPublicMap o w = (Normal tt, with_maps (fun ms => ms ++ [mp]) w)
    /\ let pts := valid_points (default [] (markers o)) in
       (2 <= length pts ->
        lm_view mp = mkView (CenterOf (BoundsOfPoints pts) (30%float, 30%float))
                            (ZoomFitting (BoundsOfPoints pts) (30%float, 30%float)))
       /\ (forall p, pts = [p] ->
           lm_view mp = mkView (CenterAt p) (ZoomAt 14%float))
       /\ (pts = [] -> path_given o = false ->
           lm_views mp = [start_view o] /\ lm_view mp = start_view o).
Proof.
  intros Hel HL. exists (public_map o). split; [by eapply initPublicMap_run|].
  cbn zeta. unfold lm_view, public_map. cbn [lm_views].
  set (pts := valid_points (default [] (markers o))).
  split; [|split].
  - intros Hlen. unfold marker_views.
    destruct pts as [|p [|q pts']]; simpl in Hlen; try lia.
    simpl. rewrite app_comm_cons, last_snoc. reflexivity.
  - intros p ->. unfold marker_views.
    simpl. rewrite app_comm_cons, last_snoc. reflexivity.
  - intros -> Hpath.
    assert (Hnone : path_views polyline_accepts line_bounds_valid o = []).
    { unfold path_views, path_given in *.
      destruct (path o); try done. by rewrite Hpath. }
    rewrite Hnone. by split.
Qed.

(** C10. Given a path of two or more points that the library draws and
    finds valid bounds for, and two or more descriptors of numeric
    coordinates, the instance is given three views in this order: the start
    view, the fit to the bounds of the line, the fit to the positions of the
    markers; the last is the one it shows. *)
Theorem markers_fit_overrides_path_fit
    (o : options) (w : world) (el : nat) (line : list jsval) :
  document w !! mapId o = Some el -> window_L w = true ->
  path o = VArr line -> 2 <= length line ->
  polyline_accepts line = true -> line_bounds_valid line = Normal true ->
  2 <= length (valid_points (default [] (markers o))) ->
  exists mp,
    initPublicMap o w = (Normal tt, with_maps (fun ms => ms ++ [mp]) w)
    /\ lm_views mp
       = [ start_view o;
           fitted (BoundsOfLine line);
           fitted (BoundsOfPoints (valid_points (default [] (markers o)))) ]
    /\ lm_view mp
       = fitted (BoundsOfPoints (valid_points (default [] (markers o)))).
Proof.
  intros Hel HL Hpath Hline Hacc Hval Hpts.
  exists (public_map o). split; [by eapply initPublicMap_run|].
  assert (Hviews : lm_views (public_map o)
    = [ start_view o; fitted (BoundsOfLine line);
        fitted (BoundsOfPoints (valid_points (default [] (markers o)))) ]).
  { unfold public_map, path_views, marker_views. cbn [lm_views].
    rewrite Hpath, Hacc, Hval.
    destruct (Nat.leb_spec 2 (length line)); [|lia].
    destruct (valid_points (default [] (markers o))) as [|p [|q pts]];
      simpl in Hpts; try lia. reflexivity. }
  split; [done|]. unfold lm_view. by rewrite Hviews.
Qed.

(** C5. With the container missing from the document, or the mapping
    library not loaded, both initializers complete normally and leave the
    page exactly as it was: no map instance is made, no element is written,
    no timer is set, and the picker registers no handler. *)
Theorem initializers_return_at_guard (o : options) (w : world) :
  document w !! mapId o = None \/ window_L w = false ->
  initPickerMap o w = (Normal None, w)
  /\ initPublicMap o w = (Normal tt, w).
Proof.
  intros Hg. split; [by apply initPickerMap_guard|by apply initPublicMap_guard].
Qed.

(** ** The picker *)

Notation toFixed := (toFixed Number_toString).
Notation setLatLng := (setLatLng Number_toString).
Notation handle := (handle Number_toString).
Notation handle_all := (handle_all Number_toString).
Notation synced := (synced Number_toString).

Lemma field_value_Some (input : option nat) (w : world) (s : string) :
  field_value input w = Some s ->
  exists el elt, input = Some el /\ elements w !! el = Some elt /\ el_value elt = s.
Proof.
  unfold field_value. destruct input as [el|]; [|done]. simpl.
  destruct (elements w !! el) as [elt|] eqn:Helt; [|done]. simpl.
  intros [= <-]. by exists el, elt.
Qed.

Lemma run_marker_getLatLng (w : world) (map marker : nat) (mp : Lmap) (mk : Marker) :
  maps w !! map = Some mp -> lm_layers mp !! marker = Some (MarkerLayer mk) ->
  marker_getLatLng map marker w = (Normal (mk_latlng mk), w).
Proof.
  intros Hmp Hmk. unfold marker_getLatLng, bind, get.
  rewrite Hmp. cbn [mbind option_bind]. by rewrite Hmk.
Qed.

Lemma synced_wired (pk : picker) (p : latlng) (w : world) :
  synced pk p w -> wired pk w.
Proof.
  intros (mp & mk & Hmp & Hls & Hidx & Hdrag & Hpos & Hview & Hlat & Hlng).
  apply field_value_Some in Hlat as (a & ea & Ha & Hea & _).
  apply field_value_Some in Hlng as (b & eb & Hb & Heb & _).
  exists mp, mk, a, b. by rewrite Hea, Heb.
Qed.

(** [setLatLng] brings marker, view and fields to the position it is given,
    provided the two fields are two elements. *)
Lemma setLatLng_syncs (pk : picker) (lat lng : float) (w : world) :
  p_latInput pk <> p_lngInput pk ->
  wired pk w ->
  exists w', setLatLng pk lat lng w = (Normal tt, w') /\ synced pk (lat, lng) w'.
Proof.
  intros Hne (mp & mk & a & b & Hmp & Hls & Hidx & Hdrag & Ha & [ea Hea] & Hb & [eb Heb]).
  assert (Hab : a <> b) by congruence.
  destruct w as [d e L ms ts n]. destruct pk as [map marker latInput lngInput].
  cbn [p_map p_marker p_latInput p_lngInput maps elements] in *. subst.
  unfold setLatLng. cbn [p_map p_marker p_latInput p_lngInput ToString].
  unfold set_value, modify, bind, with_elements. cbn [document elements window_L maps timers now].
  unfold marker_setLatLng, panTo.
  rewrite (run_on_map _ _ _ _ _ _ _ _ _ Hmp).
  erewrite run_on_map by (by eapply lookup_insert_here).
  rewrite list_insert_insert_eq.
  eexists. split; [reflexivity|].
  eexists _, _. cbn [p_map p_marker p_latInput p_lngInput maps elements].
  split; [by eapply lookup_insert_here|].
  unfold with_view, with_layers, lm_view. cbn [lm_layers lm_views lm_container].
  rewrite Hls. cbn [alter list_alter on_marker].
  rewrite last_snoc. cbn [default from_option id v_center mk_draggable mk_latlng].
  repeat split; try done.
  - unfold field_value. cbn [mbind option_bind elements].
    rewrite lookup_alter_ne by done. rewrite lookup_alter_eq, Hea. reflexivity.
  - unfold field_value. cbn [mbind option_bind elements].
    rewrite lookup_alter_eq, lookup_alter_ne, Heb by done. reflexivity.
Qed.

Lemma handle_syncs (pk : picker) (ev : picker_event) (w : world) :
  p_latInput pk <> p_lngInput pk ->
  wired pk w ->
  exists w', handle pk ev w = (Normal tt, w') /\ synced pk (event_position ev) w'.
Proof.
  intros Hne Hwired. destruct ev as [e_lat e_lng | [lat lng]].
  - by eapply setLatLng_syncs.
  - cbn [handle event_position].
    destruct Hwired as (mp & mk & a & b & Hmp & Hls & Hidx & Hdrag & Ha & Hea & Hb & Heb).
    destruct w as [d e L ms ts n]. cbn [maps elements] in *.
    unfold marker_setLatLng at 1.
    rewrite (run_bind _ _ _ _ _ (run_on_map _ _ _ _ _ _ _ _ _ Hmp)).
    set (mp' := with_layers _ mp).
    assert (Hmp' : <[p_map pk := mp']> ms !! p_map pk = Some mp')
      by (by eapply lookup_insert_here).
    assert (Hls' : lm_layers mp'
              = [osm_tiles; MarkerLayer (mkMarker (lat, lng) (mk_draggable mk) (mk_popup mk))]).
    { unfold mp', with_layers. cbn [lm_layers]. by rewrite Hls, Hidx. }
    erewrite run_bind; cycle 1.
    { eapply run_marker_getLatLng; [exact Hmp'|]. by rewrite Hls', Hidx. }
    cbn [mk_latlng fst snd].
    eapply setLatLng_syncs; [done|].
    exists mp', (mkMarker (lat, lng) (mk_draggable mk) (mk_popup mk)), a, b.
    cbn [maps elements mk_draggable]. repeat split; try done.
Qed.

Lemma last_position_cons (p0 : latlng) (ev : picker_event) (evs : list picker_event) :
  last_position p0 (ev :: evs) = last_position (event_position ev) evs.
Proof.
  unfold last_position. destruct evs as [|ev' evs']; [done|].
  change (event_position <$> ev :: ev' :: evs')
    with (event_position ev :: (event_position <$> ev' :: evs')).
  rewrite last_cons.
  by destruct (last (event_position <$> ev' :: evs')) eqn:Hlast.
Qed.

Lemma handle_all_syncs (pk : picker) (evs : list picker_event) (p0 : latlng) (w : world) :
  p_latInput pk <> p_lngInput pk ->
  synced pk p0 w ->
  exists w', handle_all pk evs w = (Normal tt, w')
             /\ synced pk (last_position p0 evs) w'.
Proof.
  intros Hne. revert p0 w. induction evs as [|ev evs IH]; intros p0 w Hsync.
  - exists w. by split.
  - destruct (handle_syncs pk ev w Hne (synced_wired _ _ _ Hsync))
      as (w1 & Hrun & Hsync1).
    destruct (IH _ _ Hsync1) as (w2 & Hrun2 & Hsync2).
    exists w2. split.
    + cbn [handle_all]. by rewrite (run_bind _ _ _ _ _ Hrun).
    + by rewrite last_position_cons.
Qed.

Lemma uint_digits (u : Decimal.uint) :
  forallb is_digit (list_ascii_of_string (NilEmpty.string_of_uint u)) = true.
Proof. induction u; simpl; auto. Qed.

Lemma forallb_replicate_zero (k : nat) :
  forallb is_digit (replicate k "0"%char) = true.
Proof. induction k; simpl; auto. Qed.

Lemma point_before_last_shape (n : Z) :
  exists a b,
    point_before_last 6 n = string_of_list_ascii (a ++ "."%char :: b)
    /\ a <> [] /\ length b = 6%nat /\ forallb is_digit (a ++ b) = true.
Proof.
  unfold point_before_last. cbn [Nat.eqb].
  set (m := decimal_digits n).
  assert (Hm : forallb is_digit m = true) by apply uint_digits.
  set (m' := if (length m <=? 6)%nat
             then replicate (6 + 1 - length m) "0"%char ++ m else m).
  assert (Hlen : 7 <= length m').
  { unfold m'. destruct (Nat.leb_spec (length m) 6).
    - rewrite length_app, length_replicate. lia.
    - lia. }
  assert (Hdig : forallb is_digit m' = true).
  { unfold m'. destruct (length m <=? 6)%nat; [|done].
    by rewrite forallb_app, forallb_replicate_zero, Hm. }
  exists (take (length m' - 6) m'), (drop (length m' - 6) m').
  split; [done|]. split; [|split].
  - intros Hnil. apply (f_equal length) in Hnil.
    rewrite length_take in Hnil. simpl in Hnil. lia.
  - rewrite length_drop. lia.
  - by rewrite take_drop.
Qed.

(** What [toFixed(6)] prints for a finite number below [10^21] has exactly
    six digits after the point. *)
Lemma toFixed_six_decimals (x : float) :
  plain_range x = true -> six_decimals (toFixed x 6).
Proof.
  unfold plain_range, toFixed.
  destruct (Prim2SF x) as [s | s | | s m e]; try done; intros Hr.
  - destruct (point_before_last_shape 0) as (a & b & Heq & Ha & Hb & Hd).
    exists EmptyString, a, b. rewrite Heq. repeat split; auto.
  - apply negb_true_iff in Hr. rewrite Hr.
    destruct (point_before_last_shape (nearest_scaled m e 6))
      as (a & b & Heq & Ha & Hb & Hd).
    exists (if s then "-" else EmptyString), a, b. rewrite Heq.
    repeat split; auto. destruct s; auto.
Qed.

(** A call of [initPickerMap] that passes the guard, with two fields that
    are two elements of the page, returns with everything in step at the
    start position. *)
Lemma initPickerMap_syncs (o : options) (w : world) (el a b : nat) :
  document w !! mapId o = Some el -> window_L w = true ->
  document w !! id_text (latInputId o) = Some a ->
  document w !! id_text (lngInputId o) = Some b ->
  a <> b -> is_Some (elements w !! a) -> is_Some (elements w !! b) ->
  exists w1,
    initPickerMap o w
    = (Normal (Some (Picker (length (maps w)) 1 (Some a) (Some b))), w1)
    /\ synced (Picker (length (maps w)) 1 (Some a) (Some b))
              (default default_startLat (startLat o),
               default default_startLng (startLng o)) w1.
Proof.
  destruct w as [d e L ms ts n]. cbn [document window_L elements maps].
  intros Hel -> Ha Hb Hab Hea Heb.
  unfold initPickerMap.
  rewrite (run_bind _ _ _ _ _ (run_getElementById _ _)).
  rewrite (run_bind _ _ _ _ _ (run_getElementById _ _)).
  rewrite (run_bind _ _ _ _ _ (run_getElementById _ _)).
  rewrite (run_bind _ _ _ _ _ (run_get _)).
  cbn [document window_L maps elements timers now]. rewrite Hel, Ha, Hb.
  cbn [is_null negb orb].
  rewrite (run_bind _ _ _ _ _ (run_L_map _ _ _ _ _ _ _)).
  unfold setView at 1.
  rewrite (run_bind _ _ _ _ _ (run_on_last _ _ _ _ _ _ _ _)).
  rewrite (run_bind _ _ _ _ _ (run_addTo_last _ _ _ _ _ _ _ _)).
  rewrite (run_bind _ _ _ _ _ (run_addTo_last _ _ _ _ _ _ _ _)).
  cbn [with_layers with_view lm_layers lm_views lm_container app length].
  match goal with
  | |- context [bind (setLatLng ?pk ?x ?y) _ ?w0] =>
      destruct (setLatLng_syncs pk x y w0) as (w1 & Hrun & Hsync)
  end.
  - cbn [p_latInput p_lngInput]. congruence.
  - eexists _, _, a, b. cbn [p_map p_marker p_latInput p_lngInput maps elements].
    split; [apply lookup_snoc|]. by simpl.
  - exists w1. by rewrite (run_bind _ _ _ _ _ Hrun).
Qed.

(** C6. When the picker is initialized on a page that has the container,
    the library and the two fields (two distinct elements), the marker, the
    centre of the view and the two fields agree from then on: right after
    initialization at the start position, where with the default start the
    fields read -1.831200 and -78.183400, and after any run of map clicks
    and marker drag ends at the position of the last of them, each
    coordinate written the way [toFixed(6)] prints it, which for a finite
    number below [10^21] in magnitude is with exactly six digits after the
    point. The map keeps exactly one marker, draggable, throughout. *)
Theorem picker_fields_follow_marker (o : options) (w : world) (el a b : nat) :
  document w !! mapId o = Some el -> window_L w = true ->
  document w !! id_text (latInputId o) = Some a ->
  document w !! id_text (lngInputId o) = Some b ->
  a <> b -> is_Some (elements w !! a) -> is_Some (elements w !! b) ->
  let start := (default default_startLat (startLat o),
                default default_startLng (startLng o)) in
  exists pk w1,
    initPickerMap o w = (Normal (Some pk), w1)
    /\ synced pk start w1
    /\ (startLat o = None -> field_value (p_latInput pk) w1 = Some "-1.831200")
    /\ (startLng o = None -> field_value (p_lngInput pk) w1 = Some "-78.183400")
    /\ (forall evs, exists w2,
          handle_all pk evs w1 = (Normal tt, w2)
          /\ synced pk (last_position start evs) w2)
    /\ (forall x, plain_range x = true -> six_decimals (toFixed x 6)).
Proof.
  intros Hel HL Ha Hb Hab Hea Heb start.
  destruct (initPickerMap_syncs o w el a b Hel HL Ha Hb Hab Hea Heb)
    as (w1 & Hrun & Hsync).
  eexists _, w1. split; [exact Hrun|]. split; [exact Hsync|].
  pose proof Hsync as (mp & mk & _ & _ & _ & _ & _ & _ & Hlat & Hlng).
  split; [|split; [|split]].
  - intros Hdef. rewrite Hlat. unfold start. by rewrite Hdef.
  - intros Hdef. rewrite Hlng. unfold start. by rewrite Hdef.
  - intros evs. apply handle_all_syncs; [|done].
    cbn [p_latInput p_lngInput]. congruence.
  - apply toFixed_six_decimals.
Qed.

(** ** The popup *)

Notation listings_link := (listings_link Number_toString).
Notation maps_link := (maps_link Number_toString).
Notation whatsapp_link := (whatsapp_link Number_toString).


Lemma append_assoc (s t u : string) : (s +:+ t) +:+ u = s +:+ (t +:+ u).
Proof. induction s as [|c s IH]; simpl; [done|by rewrite IH]. Qed.

Lemma cat_app (l1 l2 : list string) : cat (l1 ++ l2) = cat l1 +:+ cat l2.
Proof.
  induction l1 as [|x l1 IH]; [done|].
  cbn [app]. unfold cat in *. cbn [foldr]. by rewrite IH, append_assoc.
Qed.

Lemma cat_cons (x : string) (l : list string) : cat (x :: l) = x +:+ cat l.
Proof. reflexivity. Qed.

Lemma all_chars_app (ok : ascii -> bool) (s t : string) :
  all_chars ok (s +:+ t) = all_chars ok s && all_chars ok t.
Proof.
  induction s as [|c s IH]; simpl; [done|]. by rewrite IH, andb_assoc.
Qed.

Lemma percent_octet_safe (c : ascii) : all_chars uri_safe (percent_octet c) = true.
Proof. destruct c as [[] [] [] [] [] [] [] []]; reflexivity. Qed.

(** Percent-encoded text holds nothing but the characters a URL component
    may hold. *)
Lemma encodeURIComponent_safe (s : string) :
  all_chars uri_safe (encodeURIComponent s) = true.
Proof.
  induction s as [|c s IH]; [done|].
  cbn [encodeURIComponent]. rewrite all_chars_app, IH, andb_true_r.
  destruct (uri_unreserved c) eqn:Hc; [|apply percent_octet_safe].
  simpl. unfold uri_safe. by rewrite Hc.
Qed.


(** *** The links of the popup *)














(** C1 (what the code does instead). The map URL and the phone number go
    into the markup as they are: a map URL that closes the attribute and
    opens a script element is found unchanged in the popup, and so is a
    phone number that does the same. The name and the route shown are
    escaped. *)
Theorem popup_inserts_url_and_phone_unescaped :
  let evil := dq +:+ "><script>alert(1)</script>" in
  let by_url := Descriptor (VNum 0%float) (VNum 0%float)
                  (VStr evil) (VStr evil) (VStr evil) VUndef in
  let by_phone := Descriptor (VNum 0%float) (VNum 0%float)
                    VUndef VUndef VUndef (VStr evil) in
  contains ("<a href=" +:+ dq +:+ evil) (popup by_url) = true
  /\ contains ("<a href=" +:+ dq +:+ "https://wa.me/" +:+ evil) (popup by_phone) = true
  /\ contains (">&quot;&gt;&lt;script&gt;alert(1)&lt;/script&gt;</div>")
       (popup by_url) = true.
Proof. vm_compute. repeat split. Qed.

End HostFacts.

(** ** The success banner *)

Lemma timers_run_callback (cb : callback) (w : world) :
  timers (run_callback cb w) = timers w.
Proof. by destruct cb. Qed.

Lemma timers_foldl_callbacks (l : list timer) (w : world) :
  timers (foldl (fun w tm => run_callback (tm_callback tm) w) w l) = timers w.
Proof.
  revert w. induction l as [|tm l IH]; intros w; [done|].
  simpl. by rewrite IH, timers_run_callback.
Qed.

(** After the loop has run to [t], the timers pending are those due later. *)
Lemma timers_advance_to (t : N) (w : world) :
  timers (advance_to t w) = filter (fun tm => ¬ (tm_due tm <= t)%N) (timers w).
Proof. unfold advance_to. by rewrite timers_foldl_callbacks. Qed.

Lemma elem_of_insert_timer (tm x : timer) (l : list timer) :
  x ∈ insert_timer tm l <-> x = tm \/ x ∈ l.
Proof.
  induction l as [|y l IH]; simpl.
  - rewrite list_elem_of_singleton, elem_of_nil. tauto.
  - destruct (tm_due tm <? tm_due y)%N.
    + by rewrite elem_of_cons.
    + rewrite !elem_of_cons, IH. tauto.
Qed.

Lemma length_insert_timer (tm : timer) (l : list timer) :
  length (insert_timer tm l) = S (length l).
Proof.
  induction l as [|y l IH]; simpl; [done|].
  destruct (tm_due tm <? tm_due y)%N; simpl; by rewrite ?IH.
Qed.

(** The class list of an element only grows, and the element stays in the
    store. *)
Lemma elem_of_add_token (cls x : string) (l : list string) :
  x ∈ add_token cls l <-> x = cls \/ x ∈ l.
Proof.
  unfold add_token. case_bool_decide as Hin.
  - split; [by right|]. by intros [->|].
  - rewrite elem_of_app, list_elem_of_singleton. tauto.
Qed.

Lemma run_callback_keeps_element (cb : callback) (box : nat) (w : world) :
  is_Some (elements w !! box) -> is_Some (elements (run_callback cb w) !! box).
Proof.
  destruct cb as [box' cls]. destruct w as [d e L ms ts n]. simpl.
  intros [elt Helt]. destruct (decide (box' = box)) as [->|Hne].
  - rewrite lookup_alter_eq, Helt. by eexists.
  - rewrite lookup_alter_ne by done. by eexists.
Qed.

Lemma run_callback_keeps_class (cb : callback) (box : nat) (cls : string) (w : world) :
  has_class box cls w -> has_class box cls (run_callback cb w).
Proof.
  destruct cb as [box' cls']. destruct w as [d e L ms ts n].
  intros (elt & Helt & Hcls). unfold has_class. simpl in *.
  destruct (decide (box' = box)) as [->|Hne].
  - rewrite lookup_alter_eq, Helt. eexists. split; [done|]. simpl.
    apply elem_of_add_token. by right.
  - rewrite lookup_alter_ne by done. by exists elt.
Qed.

Lemma run_callback_adds_class (box : nat) (cls : string) (w : world) :
  is_Some (elements w !! box) -> has_class box cls (run_callback (AddClass box cls) w).
Proof.
  destruct w as [d e L ms ts n]. intros [elt Helt]. unfold has_class. simpl in *.
  rewrite lookup_alter_eq, Helt. eexists. split; [done|]. simpl.
  apply elem_of_add_token. by left.
Qed.

Lemma foldl_keeps_element (l : list timer) (box : nat) (w : world) :
  is_Some (elements w !! box) ->
  is_Some (elements (foldl (fun w tm => run_callback (tm_callback tm) w) w l) !! box).
Proof.
  revert w. induction l as [|tm l IH]; intros w Hw; [done|].
  simpl. apply IH. by apply run_callback_keeps_element.
Qed.

Lemma foldl_keeps_class (l : list timer) (box : nat) (cls : string) (w : world) :
  has_class box cls w ->
  has_class box cls (foldl (fun w tm => run_callback (tm_callback tm) w) w l).
Proof.
  revert w. induction l as [|tm l IH]; intros w Hw; [done|].
  simpl. apply IH. by apply run_callback_keeps_class.
Qed.

Lemma foldl_adds_class (l : list timer) (due : N) (box : nat) (cls : string) (w : world) :
  Timer due (AddClass box cls) ∈ l ->
  is_Some (elements w !! box) ->
  has_class box cls (foldl (fun w tm => run_callback (tm_callback tm) w) w l).
Proof.
  revert w. induction l as [|tm l IH]; intros w Hin Hw; [by apply elem_of_nil in Hin|].
  apply elem_of_cons in Hin as [<- | Hin]; simpl.
  - apply foldl_keeps_class. by apply run_callback_adds_class.
  - apply IH; [done|]. by apply run_callback_keeps_element.
Qed.

(** C8. The statement [autoHide(successBox, 8000)] of the script does
    nothing when the page has no element of that identifier, and nothing
    when the element already carries the class [hidden]. Otherwise it
    completes having set one timer, due 8000 after the current time, whose
    callback adds the class to that element, and changed nothing else. The
    timer is still pending at every time before it is due; at every time
    from then on it has run, the element carries the class, and the timer
    is no longer pending, so it cannot run again. On a page with no other
    timer the element is untouched before the delay is over, and what the
    timer does is to add that one class. *)
Theorem autoHide_success_banner (w : world) :
  (document w !! "successBox" = None -> app_js w = (Normal tt, w))
  /\ (forall box elt,
        document w !! "successBox" = Some box ->
        elements w !! box = Some elt ->
        ("hidden" ∈ el_classList elt -> app_js w = (Normal tt, w))
        /\ (~ ("hidden" ∈ el_classList elt) ->
            let tm := Timer (now w + 8000) (AddClass box "hidden") in
            let w1 := with_timers (insert_timer tm) w in
            app_js w = (Normal tt, w1)
            /\ length (timers w1) = S (length (timers w))
            /\ (forall t, (t < now w + 8000)%N ->
                  tm ∈ timers (advance_to t w1)
                  /\ (timers w = [] -> elements (advance_to t w1) = elements w))
            /\ (forall t, (now w + 8000 <= t)%N ->
                  ~ (tm ∈ timers (advance_to t w1))
                  /\ has_class box "hidden" (advance_to t w1)
                  /\ (timers w = [] ->
                      elements (advance_to t w1)
                      = <[box := Element (el_value elt) (el_classList elt ++ ["hidden"])]>
                          (elements w)
                      /\ timers (advance_to t w1) = []
                      /\ forall t', elements (advance_to t' (advance_to t w1))
                                    = elements (advance_to t w1))))).
Proof.
  unfold app_js, autoHide.
  split.
  - intros Hnone. rewrite (run_bind _ _ _ _ _ (run_getElementById _ _)).
    by rewrite Hnone.
  - intros box elt Hbox Helt.
    rewrite (run_bind _ _ _ _ _ (run_getElementById _ _)). rewrite Hbox.
    assert (Hcontains : classList_contains box "hidden" w
              = (Normal (bool_decide ("hidden" ∈ el_classList elt)), w)).
    { unfold classList_contains. rewrite (run_bind _ _ _ _ _ (run_get _)).
      by rewrite Helt. }
    rewrite (run_bind _ _ _ _ _ Hcontains).
    split; intros Hcls.
    + by rewrite bool_decide_eq_true_2.
    + rewrite bool_decide_eq_false_2 by done. cbn zeta.
      set (tm := Timer (now w + 8000) (AddClass box "hidden")).
      split; [reflexivity|].
      split; [destruct w; apply length_insert_timer|].
      split.
      * intros t Ht. split.
        -- rewrite timers_advance_to. apply list_elem_of_filter.
           split; [unfold tm; simpl; lia|].
           destruct w; simpl. apply elem_of_insert_timer. by left.
        -- intros Hnil. destruct w as [d e L ms ts n]. simpl in *. subst ts.
           unfold advance_to. simpl.
           rewrite !filter_cons. simpl.
           destruct (decide (n + 8000 <= t)%N) as [?|_]; [lia|].
           by destruct (decide (¬ (n + 8000 <= t)%N)) as [_|?].
      * intros t Ht. split; [|split].
        -- rewrite timers_advance_to. rewrite list_elem_of_filter.
           intros [Hlate _]. unfold tm in Hlate. simpl in Hlate. lia.
        -- unfold advance_to. eapply (foldl_adds_class _ (now w + 8000)).
           ++ apply list_elem_of_filter. split; [simpl; lia|]. fold tm.
              destruct w; simpl. apply elem_of_insert_timer. by left.
           ++ destruct w; simpl in *. by rewrite Helt.
        -- intros Hnil. destruct w as [d e L ms ts n]. simpl in *. subst ts.
           unfold advance_to. simpl.
           rewrite !filter_cons. simpl.
           destruct (decide (n + 8000 <= t)%N) as [_|?]; [|lia].
           destruct (decide (¬ (n + 8000 <= t)%N)) as [?|_]; [lia|]. simpl.
           split; [|split; [done|]].
           ++ apply map_eq. intros i. destruct (decide (i = box)) as [->|Hne].
              ** rewrite lookup_alter_eq, lookup_insert_eq, Helt. simpl.
                 unfold add_token. by rewrite bool_decide_eq_false_2.
              ** by rewrite lookup_alter_ne, lookup_insert_ne.
           ++ intros t'. reflexivity.
Qed.

(** * The properties at work on the sample page *)

Example toFixed_default_lat :
  toFixed sample_toString default_startLat 6 = "-1.831200".
Proof. reflexivity. Qed.

Example toFixed_default_lng :
  toFixed sample_toString default_startLng 6 = "-78.183400".
Proof. reflexivity. Qed.

(** Half of the last place goes up, a tie included; a negative number
    that rounds to zero keeps its sign. *)
Example toFixed_rounds_half_up :
  toFixed sample_toString 0.5%float 0 = "1"
  /\ toFixed sample_toString 2.5%float 0 = "3"
  /\ toFixed sample_toString (-0.0000001)%float 6 = "-0.000000"
  /\ toFixed sample_toString 123456789.125%float 6 = "123456789.125000".
Proof. repeat split. Qed.

Example encodeURIComponent_route :
  encodeURIComponent "ruta & costa/1" = "ruta%20%26%20costa%2F1".
Proof. reflexivity. Qed.

(** C3 at work: the descriptor with a textual latitude, between two shops. *)
Lemma non_numeric_descriptor_is_skipped_witness :
  initPublicMap sample_toString draws_all bounds_all
    (with_markers ([shop 1 2] ++ no_latitude :: [shop 3 4]) (public_options [] VUndef))
    sample_page
  = initPublicMap sample_toString draws_all bounds_all
      (with_markers ([shop 1 2] ++ [shop 3 4]) (public_options [] VUndef))
      sample_page.
Proof.
  apply (non_numeric_descriptor_is_skipped sample_toString draws_all bounds_all
           (public_options [] VUndef) [shop 1 2] [shop 3 4] no_latitude sample_page).
  left. vm_compute. discriminate.
Defined.

(** C4 at work: one shop, no path. *)
Lemma initPublicMap_final_view_witness :
  exists mp,
    initPublicMap sample_toString draws_all bounds_all
      (public_options [no_latitude; shop 1 2] VUndef) sample_page
    = (Normal tt, with_maps (fun ms => ms ++ [mp]) sample_page)
    /\ lm_view mp = mkView (CenterAt (1%float, 2%float)) (ZoomAt 14%float).
Proof.
  destruct (initPublicMap_final_view sample_toString draws_all bounds_all
              (public_options [no_latitude; shop 1 2] VUndef) sample_page 0%nat
              eq_refl eq_refl) as (mp & Hrun & _ & Hone & _).
  exists mp. split; [exact Hrun|]. apply Hone. reflexivity.
Defined.

(** C10 at work: a line of two points and two shops. *)
Lemma markers_fit_overrides_path_fit_witness :
  exists mp,
    initPublicMap sample_toString draws_all bounds_all
      (public_options [shop 1 2; shop 3 4] (VArr sample_line)) sample_page
    = (Normal tt, with_maps (fun ms => ms ++ [mp]) sample_page)
    /\ lm_views mp
       = [ start_view (public_options [shop 1 2; shop 3 4] (VArr sample_line));
           fitted (BoundsOfLine sample_line);
           fitted (BoundsOfPoints [(1%float, 2%float); (3%float, 4%float)]) ].
Proof.
  destruct (markers_fit_overrides_path_fit sample_toString draws_all bounds_all
              (public_options [shop 1 2; shop 3 4] (VArr sample_line))
              sample_page 0%nat sample_line
              eq_refl eq_refl eq_refl (le_n 2) eq_refl eq_refl (le_n 2))
    as (mp & Hrun & Hviews & _).
  exists mp. split; [exact Hrun|exact Hviews].
Defined.

(** C5 at work: a container that is not on the page, and a page without
    the library. *)
Lemma initializers_return_at_guard_witness :
  (initPickerMap sample_toString
     (Options "missing" (Some "lat") (Some "lng") None VUndef None None None)
     sample_page
   = (Normal None, sample_page)
   /\ initPublicMap sample_toString draws_all bounds_all
        (Options "missing" None None (Some [shop 1 2]) VUndef None None None)
        sample_page
      = (Normal tt, sample_page))
  /\ initPickerMap sample_toString picker_options page_without_library
     = (Normal None, page_without_library).
Proof.
  split.
  - split.
    + apply (initializers_return_at_guard sample_toString draws_all bounds_all
               (Options "missing" (Some "lat") (Some "lng") None VUndef None None None)
               sample_page).
      left. reflexivity.
    + apply (initializers_return_at_guard sample_toString draws_all bounds_all
               (Options "missing" None None (Some [shop 1 2]) VUndef None None None)
               sample_page).
      left. reflexivity.
  - apply (initializers_return_at_guard sample_toString draws_all bounds_all
             picker_options page_without_library).
    right. reflexivity.
Defined.

(** C6 at work: the picker with its defaults, then a click at (-1, -78). *)
Lemma picker_fields_follow_marker_witness :
  exists pk w1 w2,
    initPickerMap sample_toString picker_options sample_page = (Normal (Some pk), w1)
    /\ field_value (p_latInput pk) w1 = Some "-1.831200"
    /\ field_value (p_lngInput pk) w1 = Some "-78.183400"
    /\ handle_all sample_toString pk [MapClick (-1)%float (-78)%float] w1
       = (Normal tt, w2)
    /\ field_value (p_latInput pk) w2 = Some "-1.000000"
    /\ field_value (p_lngInput pk) w2 = Some "-78.000000".
Proof.
  destruct (picker_fields_follow_marker sample_toString picker_options sample_page
              0%nat 1%nat 2%nat eq_refl eq_refl eq_refl eq_refl
              (fun H : 1%nat = 2%nat => eq_ind 1%nat (fun n => match n with 1%nat => True | _ => False end) I 2%nat H)
              (ex_intro _ (Element EmptyString []) eq_refl)
              (ex_intro _ (Element EmptyString []) eq_refl))
    as (pk & w1 & Hrun & _ & Hlat & Hlng & Hevs & _).
  destruct (Hevs [MapClick (-1)%float (-78)%float])
    as (w2 & Hrun2 & (mp & mk & _ & _ & _ & _ & _ & _ & Hlat2 & Hlng2)).
  exists pk, w1, w2.
  split; [exact Hrun|]. split; [exact (Hlat eq_refl)|]. split; [exact (Hlng eq_refl)|].
  split; [exact Hrun2|]. split; [exact Hlat2|exact Hlng2].
Defined.

(** C8 at work: the visible banner of the sample page is hidden once 8000
    have passed, not before. *)
Lemma autoHide_success_banner_witness :
  app_js sample_page
  = (Normal tt,
     with_timers (fun _ => [Timer 8000 (AddClass 3 "hidden")]) sample_page)
  /\ elements (advance_to 7999
                 (with_timers (fun _ => [Timer 8000 (AddClass 3 "hidden")]) sample_page))
     = elements sample_page
  /\ has_class 3 "hidden"
       (advance_to 8000
          (with_timers (fun _ => [Timer 8000 (AddClass 3 "hidden")]) sample_page)).
Proof.
  destruct (proj2 (autoHide_success_banner sample_page) 3%nat
              (Element EmptyString ["alert"]) eq_refl eq_refl) as [_ Hvisible].
  destruct Hvisible as (Hrun & _ & Hbefore & Hafter).
  { intros Hin. apply elem_of_cons in Hin as [Heq|Hin]; [discriminate Heq|].
    by apply elem_of_nil in Hin. }
  split; [exact Hrun|]. split.
  - apply (proj2 (Hbefore 7999%N eq_refl) eq_refl).
  - apply (proj1 (proj2 (Hafter 8000%N (N.le_refl _)))).
Defined.



(** Why C7 asks that the map URL and the phone hold neither a double quote
    nor a less-than sign: they go into the markup as they are (C1), so a
    phone whose text closes its attribute and opens an anchor gives the
    popup a link to a map although the descriptor has no map URL. *)
Example phone_text_brings_a_link :
  let phone := "0" +:+ dq +:+ "></a><a href=" +:+ dq +:+ "https://maps.example/x" in
  let m := Descriptor (VNum 0%float) (VNum 0%float) VUndef VUndef VUndef (VStr phone) in
  ToBoolean (maps_url m) = false
  /\ maps_link sample_toString m = EmptyString
  /\ hrefs (popup sample_toString m)
     = [ "/listings?route="; "https://wa.me/0"; "https://maps.example/x" ].
Proof. vm_compute. repeat split. Qed.

(** * Further properties *)

Section MoreHostFacts.

Variable Number_toString : float -> string.
Variable polyline_accepts : list jsval -> bool.
Variable line_bounds_valid : list jsval -> completion bool.

Notation ToString := (ToString Number_toString).
Notation escapeHtml := (escapeHtml Number_toString).
Notation popup := (popup Number_toString).
Notation popup_opening := (popup_opening Number_toString).
Notation listings_link := (listings_link Number_toString).
Notation maps_link := (maps_link Number_toString).
Notation whatsapp_link := (whatsapp_link Number_toString).
Notation toFixed := (toFixed Number_toString).
Notation setLatLng := (setLatLng Number_toString).
Notation handle := (handle Number_toString).
Notation handle_all := (handle_all Number_toString).
Notation initPickerMap := (initPickerMap Number_toString).
Notation initPublicMap :=
  (initPublicMap Number_toString polyline_accepts line_bounds_valid).
Notation public_map :=
  (public_map Number_toString polyline_accepts line_bounds_valid).
Notation marker_layers := (marker_layers Number_toString).

(** ** More on escaping *)

Lemma escapeHtml_text (s : string) : escapeHtml (VStr s) = escape_text s.
Proof. apply replace_class_g_entities. Qed.

Lemma escape_text_app (s t : string) :
  escape_text (s +:+ t) = escape_text s +:+ escape_text t.
Proof.
  induction s as [|c s IH]; [done|].
  cbn [String.append escape_text]. by rewrite IH, append_assoc.
Qed.

Lemma entity_length (c : ascii) :
  (if reserved c then 4 <= String.length (entity c)
   else String.length (entity c) = 1)
  /\ String.length (entity c) <= 6.
Proof.
  destruct (reserved c) eqn:Hc.
  - apply reserved_cases in Hc.
    destruct Hc as [-> | [-> | [-> | [-> | ->]]]]; simpl; lia.
  - rewrite (entity_not_reserved _ Hc). simpl. lia.
Qed.

Lemma escape_text_length (s : string) :
  String.length s <= String.length (escape_text s) <= 6 * String.length s.
Proof.
  induction s as [|c s IH]; [simpl; lia|].
  cbn [escape_text]. rewrite length_app_string.
  pose proof (entity_length c) as [Hlo Hhi].
  destruct (reserved c); simpl String.length; lia.
Qed.

Lemma escape_text_longer (s : string) :
  all_chars clean s = false -> String.length s < String.length (escape_text s).
Proof.
  induction s as [|c s IH]; [done|].
  cbn [all_chars escape_text]. rewrite length_app_string. unfold clean at 1.
  pose proof (entity_length c) as [Hlo _].
  pose proof (escape_text_length s) as [Hs _].
  destruct (reserved c); simpl.
  - intros _. lia.
  - intros Hrest. specialize (IH Hrest). lia.
Qed.

Lemma escape_text_clean_id (s : string) :
  all_chars clean s = true -> escape_text s = s.
Proof.
  induction s as [|c s IH]; [done|].
  cbn [all_chars escape_text]. unfold clean at 1.
  intros [Hc Hs]%andb_true_iff. apply negb_true_iff in Hc.
  by rewrite (entity_not_reserved _ Hc), IH.
Qed.

Lemma entity_keeps_clean (c : ascii) :
  all_chars clean (entity c) = clean c.
Proof.
  unfold clean. destruct (reserved c) eqn:Hc.
  - apply reserved_cases in Hc.
    destruct Hc as [-> | [-> | [-> | [-> | ->]]]]; reflexivity.
  - rewrite (entity_not_reserved _ Hc). simpl. by rewrite Hc.
Qed.

Lemma escape_text_keeps_clean (s : string) :
  all_chars clean (escape_text s) = all_chars clean s.
Proof.
  induction s as [|c s IH]; [done|].
  cbn [all_chars escape_text]. by rewrite all_chars_app, entity_keeps_clean, IH.
Qed.

(** X1. Escaping goes through concatenation: the escape of two texts put
    together is the two escapes put together. It never shortens a text and
    makes it at most six times as long, and it gives the text back
    unchanged exactly when the text holds none of the five reserved
    characters. *)
Theorem escapeHtml_concat_length_clean (s t : string) :
  escapeHtml (VStr (s +:+ t)) = escapeHtml (VStr s) +:+ escapeHtml (VStr t)
  /\ String.length s <= String.length (escapeHtml (VStr s)) <= 6 * String.length s
  /\ (escapeHtml (VStr s) = s <-> all_chars (fun c => negb (reserved c)) s = true).
Proof.
  rewrite !escapeHtml_text. split; [apply escape_text_app|].
  split; [apply escape_text_length|]. split.
  - intros Heq. destruct (all_chars clean s) eqn:Hs; [done|].
    apply escape_text_longer in Hs. rewrite Heq in Hs. lia.
  - apply escape_text_clean_id.
Qed.

(** X2. Escaping is not idempotent: escaping an escaped value once more
    changes it, as soon as the value's text holds a reserved character (the
    ampersand of each entity is escaped again); only for a text with no
    reserved character do one and two rounds agree. *)
Theorem escapeHtml_twice (v : jsval) :
  escapeHtml (VStr (escapeHtml v)) = escapeHtml v
  <-> all_chars (fun c => negb (reserved c)) (ToString v) = true.
Proof.
  rewrite escapeHtml_text.
  assert (He : escapeHtml v = escape_text (ToString v))
    by apply replace_class_g_entities.
  rewrite He. split.
  - intros Heq.
    destruct (all_chars clean (ToString v)) eqn:Hs; [done|].
    rewrite <- escape_text_keeps_clean in Hs.
    apply escape_text_longer in Hs. rewrite Heq in Hs. lia.
  - intros Hs. apply escape_text_clean_id. by rewrite escape_text_keeps_clean.
Qed.

(** ** More on percent-encoding *)

Lemma percent_decode_octet (c : ascii) (s : string) :
  uri_unreserved c = false ->
  percent_decode (percent_octet c +:+ s) = String c <$> percent_decode s.
Proof.
  destruct c as [[] [] [] [] [] [] [] []]; intros Hc;
    first [discriminate Hc | reflexivity].
Qed.

Lemma unreserved_not_percent (c : ascii) :
  uri_unreserved c = true -> Ascii.eqb c "%" = false.
Proof.
  destruct (Ascii.eqb c "%") eqn:Hc; [|done].
  apply Ascii.eqb_eq in Hc. by subst c.
Qed.

(** X3. Percent-encoding loses nothing: reading the octets back gives the
    text that was encoded, so two different routes never get the same
    listings link. *)
Theorem encodeURIComponent_reads_back (s t : string) :
  percent_decode (encodeURIComponent s) = Some s
  /\ (encodeURIComponent s = encodeURIComponent t -> s = t).
Proof.
  assert (Hback : forall u, percent_decode (encodeURIComponent u) = Some u).
  { induction u as [|c u IH]; [done|].
    cbn [encodeURIComponent]. destruct (uri_unreserved c) eqn:Hc.
    - cbn [String.append percent_decode].
      by rewrite (unreserved_not_percent _ Hc), IH.
    - by rewrite (percent_decode_octet _ _ Hc), IH. }
  split; [apply Hback|].
  intros Heq. apply (f_equal percent_decode) in Heq.
  rewrite !Hback in Heq. by injection Heq.
Qed.

(** ** The markup of the popup *)

Lemma count_char_app (c : ascii) (s t : string) :
  count_char c (s +:+ t) = count_char c s + count_char c t.
Proof.
  induction s as [|c' s IH]; [done|].
  cbn [String.append count_char]. rewrite IH. lia.
Qed.

Lemma count_char_cat (c : ascii) (l : list string) :
  count_char c (cat l) = foldr (fun s n => count_char c s + n) 0 l.
Proof.
  induction l as [|s l IH]; [done|].
  rewrite cat_cons, count_char_app, IH. reflexivity.
Qed.

Lemma count_char_absent (c : ascii) (s : string) :
  occurs c s = false -> count_char c s = 0.
Proof.
  induction s as [|c' s IH]; [done|].
  cbn [occurs count_char]. intros [Hc Hs]%orb_false_iff.
  by rewrite Hc, IH.
Qed.

Lemma occurs_unsafe (c : ascii) (s : string) :
  uri_safe c = false -> all_chars uri_safe s = true -> occurs c s = false.
Proof.
  intros Hc. induction s as [|c' s IH]; [done|].
  cbn [all_chars occurs]. intros [Hc' Hs]%andb_true_iff.
  rewrite (IH Hs), orb_false_r. apply Ascii.eqb_neq. intros <-. congruence.
Qed.

Lemma count_char_escapeHtml (c : ascii) (v : jsval) :
  reserved c = true -> c <> "&"%char -> count_char c (escapeHtml v) = 0.
Proof.
  intros Hc Hamp. apply count_char_absent.
  assert (He : escapeHtml v = escape_text (ToString v))
    by apply replace_class_g_entities.
  rewrite He. by apply escape_text_clean.
Qed.

Lemma count_char_encoded (c : ascii) (s : string) :
  uri_safe c = false -> count_char c (encodeURIComponent s) = 0.
Proof.
  intros Hc. apply count_char_absent.
  eapply occurs_unsafe; [done|]. apply encodeURIComponent_safe.
Qed.

(** X4. Name and route cannot add markup to a popup: whatever they are,
    the part of the popup from its start to the end of the listings link
    holds exactly as many less-than signs, greater-than signs and double
    quotes as the same part of the popup of an empty descriptor; and when
    the descriptor has no map URL and no phone (falsy values) this is so
    for the whole popup. *)
Theorem popup_markup_is_the_templates (m : descriptor) (c : ascii) :
  c = "<"%char \/ c = ">"%char \/ c = "034"%char ->
  count_char c (popup_opening m +:+ listings_link m)
  = count_char c (popup_opening blank +:+ listings_link blank)
  /\ (ToBoolean (maps_url m) = false -> ToBoolean (phone_whatsapp m) = false ->
      count_char c (popup m) = count_char c (popup blank)).
Proof.
  intros Hc.
  assert (Hres : reserved c = true /\ c <> "&"%char /\ uri_safe c = false)
    by (destruct Hc as [-> | [-> | ->]]; done).
  destruct Hres as (Hres & Hamp & Hunsafe).
  assert (Hopen : count_char c (popup_opening m) = count_char c (popup_opening blank)).
  { unfold popup_opening. rewrite !count_char_cat. cbn [foldr].
    rewrite !(count_char_escapeHtml c) by done. reflexivity. }
  assert (Hlist : count_char c (listings_link m) = count_char c (listings_link blank)).
  { unfold listings_link. rewrite !count_char_cat. cbn [foldr].
    rewrite !(count_char_encoded c) by done. reflexivity. }
  split.
  - by rewrite !count_char_app, Hopen, Hlist.
  - intros Hurl Hphone. unfold popup, maps_link, whatsapp_link.
    rewrite Hurl, Hphone. cbn [blank maps_url phone_whatsapp ToBoolean].
    rewrite !count_char_cat. cbn [foldr]. by rewrite Hopen, Hlist.
Qed.

(** ** More on the public map *)

Lemma omap_step {A B} (f : A -> option B) (x : A) (l : list A) :
  omap f (x :: l) = match f x with Some y => y :: omap f l | None => omap f l end.
Proof. reflexivity. Qed.

Lemma omap_layer_marker_layers (ms : list descriptor) :
  omap layer_marker (marker_layers ms)
  = omap (fun m => (fun p => mkMarker p false (Some (popup m))) <$> numeric m) ms.
Proof.
  unfold marker_layers.
  induction ms as [|m ms IH]; [done|].
  cbn [omap list_omap]. destruct (numeric m) as [p|]; cbn [fmap option_fmap option_map layer_marker].
  - cbn [omap list_omap layer_marker]. by rewrite IH.
  - exact IH.
Qed.

Lemma omap_layer_marker_path (o : options) :
  omap layer_marker (path_layers polyline_accepts o) = [].
Proof.
  unfold path_layers. destruct (path o); try done.
  by destruct ((2 <=? length elts)%nat && polyline_accepts elts).
Qed.

Lemma positions_of_markers (ms : list descriptor) :
  mk_latlng <$> omap (fun m => (fun p => mkMarker p false (Some (popup m))) <$> numeric m) ms
  = valid_points ms.
Proof.
  unfold valid_points. induction ms as [|m ms IH]; [done|].
  rewrite !omap_step. destruct (numeric m) as [p|]; [|exact IH].
  cbn [fmap option_fmap option_map]. rewrite fmap_cons. by rewrite IH.
Qed.

(** The view a call leaves, by the positions of the numeric descriptors. *)
Lemma public_map_view (o : options) :
  let pts := valid_points (default [] (markers o)) in
  (2 <= length pts -> lm_view (public_map o) = fitted (BoundsOfPoints pts))
  /\ (forall p, pts = [p] ->
      lm_view (public_map o) = mkView (CenterAt p) (ZoomAt 14%float))
  /\ (pts = [] ->
      lm_views (public_map o)
      = start_view o :: path_views polyline_accepts line_bounds_valid o).
Proof.
  cbn zeta. unfold lm_view, public_map. cbn [lm_views].
  set (pts := valid_points (default [] (markers o))).
  split; [|split].
  - intros Hlen. unfold marker_views.
    destruct pts as [|p [|q pts']]; simpl in Hlen; try lia.
    simpl. rewrite app_comm_cons, last_snoc. reflexivity.
  - intros p ->. unfold marker_views.
    simpl. rewrite app_comm_cons, last_snoc. reflexivity.
  - intros ->. unfold marker_views. cbn [length Nat.leb app].
    by rewrite app_nil_r.
Qed.

Lemma typeof_number_numeric (m : descriptor) :
  match numeric m with
  | Some p => typeof_number m = true /\ coordinates m = p
  | None => typeof_number m = false
  end.
Proof.
  unfold numeric, typeof_number, coordinates.
  by destruct (lat m), (lng m).
Qed.

Lemma valid_points_typeof (ms : list descriptor) :
  valid_points ms
  = coordinates <$> filter (fun m => typeof_number m = true) ms.
Proof.
  unfold valid_points. induction ms as [|m ms IH]; [done|].
  rewrite omap_step. pose proof (typeof_number_numeric m) as Hm.
  destruct (numeric m) as [p|].
  - destruct Hm as [Ht <-]. rewrite filter_cons_True by done.
    rewrite fmap_cons. by rewrite IH.
  - rewrite filter_cons_False by (by rewrite Hm). exact IH.
Qed.

Lemma marker_layers_typeof (ms : list descriptor) :
  marker_layers ms
  = (fun m => MarkerLayer (mkMarker (coordinates m) false (Some (popup m))))
      <$> filter (fun m => typeof_number m = true) ms.
Proof.
  unfold marker_layers. induction ms as [|m ms IH]; [done|].
  rewrite omap_step. pose proof (typeof_number_numeric m) as Hm.
  destruct (numeric m) as [p|]; cbn [fmap option_fmap option_map].
  - destruct Hm as [Ht <-]. rewrite filter_cons_True by done.
    rewrite fmap_cons. by rewrite IH.
  - rewrite filter_cons_False by (by rewrite Hm). exact IH.
Qed.

Lemma omap_layer_marker_fmap {A} (f : A -> Marker) (l : list A) :
  omap layer_marker ((fun x => MarkerLayer (f x)) <$> l) = f <$> l.
Proof.
  induction l as [|x l IH]; [done|].
  rewrite !fmap_cons, omap_step. cbn [layer_marker]. by rewrite IH.
Qed.

(** C9. The test of the loop is the [typeof] test and nothing more. The
    descriptors the loop keeps are those whose [lat] and [lng] both have
    the type number, whatever numbers they are (not-a-number and the
    infinities included): the callback gives such a descriptor a marker at
    its coordinates, bound to its popup, and an entry in the bounds array;
    the loop over the array returns the bounds grown by the coordinates of
    exactly the kept descriptors, in order, and adds exactly their markers
    to the map; and the map a call of [initPublicMap] leaves holds exactly
    their markers and is shown fitted to their coordinates (two or more)
    or centred on them (one). *)
Theorem numeric_check_is_typeof (o : options) (w : world) (el : nat) :
  document w !! mapId o = Some el -> window_L w = true ->
  let ms := default [] (markers o) in
  let kept := filter (fun m => typeof_number m = true) ms in
  let marker_of := fun m => mkMarker (coordinates m) false (Some (popup m)) in
  (forall m x y, lat m = VNum x -> lng m = VNum y ->
     typeof_number m = true
     /\ coordinates m = (x, y)
     /\ (m ∈ ms -> m ∈ kept)
     /\ forall d e L mps ts n map mp0 b,
          mps !! map = Some mp0 ->
          place_marker Number_toString map m b (World d e L mps ts n)
          = (Normal (b ++ [(x, y)]),
             World d e L
               (<[map := with_layers (fun ls => ls ++ [MarkerLayer (marker_of m)]) mp0]>
                  mps) ts n))
  /\ (forall m, m ∈ kept ->
        m ∈ ms /\ typeof (lat m) = "number" /\ typeof (lng m) = "number")
  /\ (forall d e L mps ts n map mp0 b,
        mps !! map = Some mp0 ->
        forEach_marker Number_toString map ms b (World d e L mps ts n)
        = (Normal (b ++ (coordinates <$> kept)),
           World d e L
             (<[map := with_layers
                         (fun ls => ls ++ ((fun m => MarkerLayer (marker_of m)) <$> kept))
                         mp0]> mps) ts n))
  /\ exists mp,
       initPublicMap o w = (Normal tt, with_maps (fun mps => mps ++ [mp]) w)
       /\ omap layer_marker (lm_layers mp) = marker_of <$> kept
       /\ (2 <= length kept ->
           lm_view mp = fitted (BoundsOfPoints (coordinates <$> kept)))
       /\ (forall m, kept = [m] ->
           lm_view mp = mkView (CenterAt (coordinates m)) (ZoomAt 14%float)).
Proof.
  intros Hel HL ms kept marker_of. split; [|split; [|split]].
  - intros m x y Hx Hy.
    assert (Ht : typeof_number m = true) by (unfold typeof_number; by rewrite Hx, Hy).
    assert (Hc : coordinates m = (x, y)) by (unfold coordinates; by rewrite Hx, Hy).
    split; [done|]. split; [done|]. split.
    + intros Hin. by apply list_elem_of_filter.
    + intros d e L mps ts n map mp0 b Hmp. unfold marker_of. rewrite Hc.
      apply run_place_marker; [|done]. unfold numeric. by rewrite Hx, Hy.
  - intros m [Ht Hin]%list_elem_of_filter. split; [done|].
    unfold typeof_number in Ht. apply andb_true_iff in Ht as [Hlat Hlng].
    by apply String.eqb_eq in Hlat, Hlng.
  - intros d e L mps ts n map mp0 b Hmp.
    rewrite (run_forEach_marker _ _ _ _ _ _ _ _ _ _ _ Hmp).
    by rewrite valid_points_typeof, marker_layers_typeof.
  - exists (public_map o). split; [by eapply initPublicMap_run|].
    pose proof (public_map_view o) as (Hmany & Hone & _).
    rewrite valid_points_typeof in Hmany, Hone. fold ms kept in Hmany, Hone.
    split; [|split].
    + unfold public_map. cbn [lm_layers omap list_omap osm_tiles layer_marker].
      rewrite omap_app, omap_layer_marker_path. cbn [app].
      fold ms. rewrite marker_layers_typeof. apply omap_layer_marker_fmap.
    + intros Hlen. apply Hmany. by rewrite length_fmap.
    + intros m Hm. apply Hone. by rewrite Hm.
Qed.

(** X5. A call that passes the guard places one marker for each descriptor
    with numeric coordinates and no other: the markers of the new map, in
    the order of the array, are those descriptors' positions, none is
    draggable, each carries the popup of its own descriptor. Their
    positions are the bounds: the loop returns the bounds array grown by
    the positions of the markers it added, and the view the call leaves is
    fitted to the positions of the markers on the map when there are two
    or more, centred at zoom 14 on the marker when there is one, and what
    the start and the path made it when there is none. *)
Theorem one_marker_per_numeric_descriptor (o : options) (w : world) (el : nat) :
  document w !! mapId o = Some el -> window_L w = true ->
  (forall d e L mps ts n map mp0 b,
     mps !! map = Some mp0 ->
     exists added,
       forEach_marker Number_toString map (default [] (markers o)) b
         (World d e L mps ts n)
       = (Normal (b ++ (mk_latlng <$> omap layer_marker added)),
          World d e L (<[map := with_layers (fun ls => ls ++ added) mp0]> mps) ts n)
       /\ length (omap layer_marker added) = length added)
  /\ exists mp,
    initPublicMap o w = (Normal tt, with_maps (fun ms => ms ++ [mp]) w)
    /\ lm_container mp = mapId o
    /\ omap layer_marker (lm_layers mp)
       = omap (fun m => (fun p => mkMarker p false (Some (popup m))) <$> numeric m)
              (default [] (markers o))
    /\ mk_latlng <$> omap layer_marker (lm_layers mp)
       = valid_points (default [] (markers o))
    /\ length (omap layer_marker (lm_layers mp))
       = length (valid_points (default [] (markers o)))
    /\ (let pts := mk_latlng <$> omap layer_marker (lm_layers mp) in
        (2 <= length pts -> lm_view mp = fitted (BoundsOfPoints pts))
        /\ (forall p, pts = [p] ->
            lm_view mp = mkView (CenterAt p) (ZoomAt 14%float))
        /\ (pts = [] ->
            lm_views mp
            = start_view o :: path_views polyline_accepts line_bounds_valid o)).
Proof.
  intros Hel HL. split.
  { intros d e L mps ts n map mp0 b Hmp.
    exists (marker_layers (default [] (markers o))).
    rewrite (run_forEach_marker _ _ _ _ _ _ _ _ _ _ _ Hmp).
    split; [by rewrite omap_layer_marker_layers, positions_of_markers|].
    by rewrite marker_layers_typeof, omap_layer_marker_fmap, !length_fmap. }
  exists (public_map o).
  split; [by eapply initPublicMap_run|]. split; [done|].
  assert (Hmk : omap layer_marker (lm_layers (public_map o))
            = omap (fun m => (fun p => mkMarker p false (Some (popup m))) <$> numeric m)
                   (default [] (markers o))).
  { unfold public_map. cbn [lm_layers omap list_omap osm_tiles layer_marker].
    by rewrite omap_app, omap_layer_marker_path, omap_layer_marker_layers. }
  rewrite Hmk, positions_of_markers.
  split; [done|]. split; [done|].
  split; [by rewrite <- positions_of_markers, length_fmap|].
  apply public_map_view.
Qed.

(** X6. Whatever the library does with a path of two or more points, the
    call completes and the markers are placed. A path the library refuses
    leaves no line on the map; a path it draws leaves one line. With no
    marker to fit to, the view ends fitted to the line when its bounds are
    valid, and stays the start view when the library refused the path, when
    computing the bounds threw and when the bounds are not valid. *)
Theorem path_failure_is_contained (o : options) (w : world) (el : nat)
    (line : list jsval) :
  document w !! mapId o = Some el -> window_L w = true ->
  path o = VArr line -> 2 <= length line ->
  exists mp,
    initPublicMap o w = (Normal tt, with_maps (fun ms => ms ++ [mp]) w)
    /\ filter (fun l => is_polyline l = true) (lm_layers mp)
       = (if polyline_accepts line then [PolylineLayer line 4%float 0.85%float] else [])
    /\ length (omap layer_marker (lm_layers mp))
       = length (valid_points (default [] (markers o)))
    /\ (valid_points (default [] (markers o)) = [] ->
        (polyline_accepts line = true -> line_bounds_valid line = Normal true ->
         lm_view mp = fitted (BoundsOfLine line))
        /\ (polyline_accepts line = false -> lm_views mp = [start_view o])
        /\ (line_bounds_valid line <> Normal true -> lm_views mp = [start_view o])).
Proof.
  intros Hel HL Hpath Hlen. exists (public_map o).
  split; [by eapply initPublicMap_run|].
  assert (Hleb : (2 <=? length line)%nat = true) by (by apply Nat.leb_le).
  assert (Hpl : path_layers polyline_accepts o
            = if polyline_accepts line then [PolylineLayer line 4%float 0.85%float] else []).
  { unfold path_layers. by rewrite Hpath, Hleb. }
  assert (Hnone : forall ms, filter (fun l => is_polyline l = true) (marker_layers ms) = []).
  { intros ms. unfold marker_layers. induction ms as [|m ms IH]; [done|].
    cbn [omap list_omap]. destruct (numeric m); [|done].
    cbn [fmap option_fmap option_map]. by rewrite filter_cons_False. }
  split; [|split].
  - unfold public_map. cbn [lm_layers].
    rewrite filter_cons_False by done.
    rewrite filter_app, Hnone, app_nil_r, Hpl.
    destruct (polyline_accepts line); [|done].
    by rewrite filter_cons_True.
  - unfold public_map. cbn [lm_layers omap list_omap osm_tiles layer_marker].
    rewrite omap_app, omap_layer_marker_path, omap_layer_marker_layers.
    cbn [app]. by rewrite <- positions_of_markers, length_fmap.
  - intros Hpts. unfold lm_view, public_map. cbn [lm_views].
    rewrite Hpts. unfold marker_views. cbn [length Nat.leb app].
    rewrite app_nil_r. unfold path_views. rewrite Hpath, Hleb. cbn [andb].
    split; [|split].
    + intros -> ->. reflexivity.
    + by intros ->.
    + intros Hbad. destruct (polyline_accepts line); [|done].
      destruct (line_bounds_valid line) as [[|]|err]; done.
Qed.

(** X7. Two calls for two containers make two map instances: the second
    call leaves the instance of the first as it was and adds the instance
    it would have made on its own. *)
Theorem second_map_leaves_first_alone (o1 o2 : options) (w : world) (el1 el2 : nat) :
  document w !! mapId o1 = Some el1 -> document w !! mapId o2 = Some el2 ->
  mapId o1 <> mapId o2 -> window_L w = true ->
  exists mp1 mp2,
    initPublicMap o1 w = (Normal tt, with_maps (fun ms => ms ++ [mp1]) w)
    /\ initPublicMap o2 w = (Normal tt, with_maps (fun ms => ms ++ [mp2]) w)
    /\ (initPublicMap o1 ;; initPublicMap o2) w
       = (Normal tt, with_maps (fun ms => ms ++ [mp1; mp2]) w).
Proof.
  intros H1 H2 _ HL. exists (public_map o1), (public_map o2).
  split; [by eapply initPublicMap_run|]. split; [by eapply initPublicMap_run|].
  erewrite run_bind by (by eapply initPublicMap_run).
  erewrite initPublicMap_run; [|by destruct w|by destruct w].
  destruct w. unfold with_maps. simpl. by rewrite <- app_assoc.
Qed.

(** ** More on the picker *)

Section OnePage.

Variables (d : gmap string nat) (e : gmap nat element) (L : bool)
          (ms : list Lmap) (ts : list timer) (n : N).

Lemma run_setLatLng (pk : picker) (mp : Lmap) (lat lng : float) :
  ms !! p_map pk = Some mp ->
  setLatLng pk lat lng (World d e L ms ts n)
  = (Normal tt,
     World d (write_field (p_lngInput pk) (toFixed lng 6)
                (write_field (p_latInput pk) (toFixed lat 6) e))
           L (<[p_map pk := moved_to pk (lat, lng) mp]> ms) ts n).
Proof.
  intros Hmp. unfold setLatLng, marker_setLatLng, panTo.
  assert (Hset : forall input s e',
    match input with
    | Some el => set_value el (ToString (VStr s))
    | None => ret tt
    end (World d e' L ms ts n)
    = (Normal tt, World d (write_field input s e') L ms ts n)).
  { intros [el|] s e'; reflexivity. }
  rewrite (run_bind _ _ _ _ _ (Hset _ _ _)).
  rewrite (run_bind _ _ _ _ _ (Hset _ _ _)).
  rewrite (run_bind _ _ _ _ _ (run_on_map _ _ _ _ _ _ _ _ _ Hmp)).
  erewrite run_on_map by (by eapply lookup_insert_here).
  by rewrite list_insert_insert_eq.
Qed.

End OnePage.

Lemma lm_view_with_view (v : View) (mp : Lmap) : lm_view (with_view v mp) = v.
Proof. unfold lm_view, with_view. cbn [lm_views]. by rewrite last_snoc. Qed.

Lemma lookup_write_field_other (input : option nat) (s : string)
    (e : gmap nat element) (el : nat) :
  Some el <> input -> write_field input s e !! el = e !! el.
Proof.
  destruct input as [a|]; [|done]. intros Hne. cbn [write_field].
  apply lookup_alter_ne. congruence.
Qed.

Lemma classes_write_field (input : option nat) (s : string)
    (e : gmap nat element) (el : nat) :
  el_classList <$> write_field input s e !! el = el_classList <$> e !! el.
Proof.
  destruct input as [a|]; [|done]. cbn [write_field].
  destruct (decide (a = el)) as [->|Hne].
  - rewrite lookup_alter_eq. by destruct (e !! el).
  - by rewrite lookup_alter_ne.
Qed.

Lemma only_picker_changed_refl (pk : picker) (w : world) :
  only_picker_changed pk w w.
Proof. by repeat split. Qed.

Lemma only_picker_changed_trans (pk : picker) (w1 w2 w3 : world) :
  only_picker_changed pk w1 w2 -> only_picker_changed pk w2 w3 ->
  only_picker_changed pk w1 w3.
Proof.
  intros (Hd & HL & Ht & Hn & Hlen & Hmaps & Hel & Hcl)
         (Hd' & HL' & Ht' & Hn' & Hlen' & Hmaps' & Hel' & Hcl').
  split; [congruence|]. split; [congruence|]. split; [congruence|].
  split; [congruence|]. split; [congruence|]. split; [|split].
  - intros i Hi. by rewrite Hmaps', Hmaps.
  - intros el Ha Hb. by rewrite Hel', Hel.
  - intros el. by rewrite Hcl', Hcl.
Qed.

(** Moving the marker alone, as the library does while it is dragged. *)
Lemma marker_setLatLng_placed (pk : picker) (z : float) (p : latlng) (w : world) :
  placed pk z w ->
  exists w', marker_setLatLng (p_map pk) (p_marker pk) p w = (Normal tt, w')
             /\ placed pk z w'
             /\ only_picker_changed pk w w'
             /\ exists mp mk, maps w' !! p_map pk = Some mp
                   /\ lm_layers mp !! p_marker pk = Some (MarkerLayer mk)
                   /\ mk_latlng mk = p.
Proof.
  intros (mp & mk & Hmp & Hls & Hidx & Hdrag & Hzoom).
  destruct w as [d e L ms ts n]. cbn [maps] in Hmp.
  unfold marker_setLatLng. rewrite (run_on_map _ _ _ _ _ _ _ _ _ Hmp).
  eexists. split; [reflexivity|].
  set (mp' := with_layers _ mp).
  assert (Hmp' : <[p_map pk := mp']> ms !! p_map pk = Some mp')
    by (by eapply lookup_insert_here).
  assert (Hls' : lm_layers mp'
            = [osm_tiles; MarkerLayer (mkMarker p (mk_draggable mk) (mk_popup mk))]).
  { unfold mp', with_layers. cbn [lm_layers]. by rewrite Hls, Hidx. }
  split; [|split].
  - exists mp', (mkMarker p (mk_draggable mk) (mk_popup mk)).
    cbn [maps mk_draggable]. by repeat split.
  - repeat split; cbn [maps elements document window_L timers now]; try done.
    + apply length_insert.
    + intros i Hi. by apply list_lookup_insert_ne.
  - exists mp', (mkMarker p (mk_draggable mk) (mk_popup mk)).
    cbn [maps]. split; [done|]. by rewrite Hls', Hidx.
Qed.

Lemma setLatLng_follows (pk : picker) (z : float) (lat lng : float) (w : world) :
  placed pk z w ->
  exists w', setLatLng pk lat lng w = (Normal tt, w')
             /\ follows Number_toString pk z (lat, lng) w'
             /\ only_picker_changed pk w w'.
Proof.
  intros (mp & mk & Hmp & Hls & Hidx & Hdrag & Hzoom).
  destruct w as [d e L ms ts n]. cbn [maps] in Hmp.
  rewrite (run_setLatLng _ _ _ _ _ _ _ _ _ _ Hmp).
  eexists. split; [reflexivity|]. split.
  - exists (moved_to pk (lat, lng) mp),
           (mkMarker (lat, lng) (mk_draggable mk) (mk_popup mk)).
    cbn [maps elements]. split; [by eapply lookup_insert_here|].
    unfold moved_to. rewrite lm_view_with_view.
    split; [unfold with_view, with_layers; cbn [lm_layers]; by rewrite Hls, Hidx|].
    split; [done|]. split; [done|]. split; [done|].
    split; [by unfold lm_view, with_layers in *; cbn [lm_views] in *; rewrite Hzoom|].
    split.
    + intros el elt Hlng. rewrite Hlng. cbn [write_field].
      rewrite lookup_alter_eq. destruct (_ !! el); [|done].
      by intros [= <-].
    + intros el elt Hlat Hne. rewrite Hlat.
      rewrite lookup_write_field_other by congruence.
      cbn [write_field]. rewrite lookup_alter_eq. destruct (e !! el); [|done].
      by intros [= <-].
  - repeat split; cbn [maps elements document window_L timers now]; try done.
    + apply length_insert.
    + intros i Hi. by apply list_lookup_insert_ne.
    + intros el Ha Hb. by rewrite !lookup_write_field_other.
    + intros el. by rewrite !classes_write_field.
Qed.

Lemma follows_placed (pk : picker) (z : float) (p : latlng) (w : world) :
  follows Number_toString pk z p w -> placed pk z w.
Proof.
  intros (mp & mk & Hmp & Hls & Hidx & Hdrag & Hpos & Hview & _).
  exists mp, mk. by rewrite Hview.
Qed.

Lemma handle_follows (pk : picker) (z : float) (ev : picker_event) (w : world) :
  placed pk z w ->
  exists w', handle pk ev w = (Normal tt, w')
             /\ follows Number_toString pk z (event_position ev) w'
             /\ only_picker_changed pk w w'.
Proof.
  intros Hplaced. destruct ev as [e_lat e_lng | [lat lng]].
  - by apply setLatLng_follows.
  - cbn [handle event_position].
    destruct (marker_setLatLng_placed pk z (lat, lng) w Hplaced)
      as (w1 & Hrun1 & Hplaced1 & Hframe1 & mp & mk & Hmp & Hmk & Hpos).
    rewrite (run_bind _ _ _ _ _ Hrun1).
    rewrite (run_bind _ _ _ _ _ (run_marker_getLatLng _ _ _ _ _ Hmp Hmk)).
    rewrite Hpos. cbn [fst snd].
    destruct (setLatLng_follows pk z lat lng w1 Hplaced1) as (w2 & Hrun2 & Hf & Hframe2).
    exists w2. split; [done|]. split; [done|].
    by eapply only_picker_changed_trans.
Qed.

Lemma handle_all_follows (pk : picker) (z : float) (evs : list picker_event)
    (p0 : latlng) (w : world) :
  follows Number_toString pk z p0 w ->
  exists w', handle_all pk evs w = (Normal tt, w')
             /\ follows Number_toString pk z (last_position p0 evs) w'
             /\ only_picker_changed pk w w'.
Proof.
  revert p0 w. induction evs as [|ev evs IH]; intros p0 w Hf.
  - exists w. split; [done|]. split; [done|]. apply only_picker_changed_refl.
  - destruct (handle_follows pk z ev w (follows_placed _ _ _ _ Hf))
      as (w1 & Hrun1 & Hf1 & Hframe1).
    destruct (IH _ _ Hf1) as (w2 & Hrun2 & Hf2 & Hframe2).
    exists w2. split; [|split].
    + cbn [handle_all]. by rewrite (run_bind _ _ _ _ _ Hrun1).
    + by rewrite last_position_cons.
    + by eapply only_picker_changed_trans.
Qed.

(** What a call that passes the guard does, whatever the two field
    identifiers name. *)
Lemma initPickerMap_follows (o : options) (w : world) (el : nat) :
  document w !! mapId o = Some el -> window_L w = true ->
  let pk := Picker (length (maps w)) 1
                   (document w !! id_text (latInputId o))
                   (document w !! id_text (lngInputId o)) in
  exists w1,
    initPickerMap o w = (Normal (Some pk), w1)
    /\ follows Number_toString pk (default default_zoom (zoom o))
         (default default_startLat (startLat o),
          default default_startLng (startLng o)) w1
    /\ only_picker_changed pk
         (with_maps (fun ms => ms ++ [mkLmap (mapId o) [] []]) w) w1.
Proof.
  destruct w as [d e L ms ts n]. cbn [document window_L elements maps].
  intros Hel ->.
  set (pk := Picker (length ms) 1 (d !! id_text (latInputId o))
                    (d !! id_text (lngInputId o))).
  unfold initPickerMap.
  rewrite (run_bind _ _ _ _ _ (run_getElementById _ _)).
  rewrite (run_bind _ _ _ _ _ (run_getElementById _ _)).
  rewrite (run_bind _ _ _ _ _ (run_getElementById _ _)).
  rewrite (run_bind _ _ _ _ _ (run_get _)).
  cbn [document window_L maps elements timers now]. rewrite Hel.
  cbn [is_null negb orb].
  rewrite (run_bind _ _ _ _ _ (run_L_map _ _ _ _ _ _ _)).
  unfold setView at 1.
  rewrite (run_bind _ _ _ _ _ (run_on_last _ _ _ _ _ _ _ _)).
  rewrite (run_bind _ _ _ _ _ (run_addTo_last _ _ _ _ _ _ _ _)).
  rewrite (run_bind _ _ _ _ _ (run_addTo_last _ _ _ _ _ _ _ _)).
  cbn [with_layers with_view lm_layers lm_views lm_container app length].
  fold pk.
  match goal with
  | |- context [bind (setLatLng pk ?x ?y) _ ?w0] =>
      destruct (setLatLng_follows pk (default default_zoom (zoom o)) x y w0)
        as (w1 & Hrun & Hf & Hframe)
  end.
  - eexists _, _. cbn [p_map p_marker maps pk].
    split; [apply lookup_snoc|]. split; [reflexivity|].
    split; [done|]. split; [done|].
    unfold lm_view. cbn [lm_views app last default from_option id v_zoom].
    reflexivity.
  - exists w1. rewrite (run_bind _ _ _ _ _ Hrun). split; [done|]. split; [done|].
    eapply only_picker_changed_trans; [|exact Hframe].
    repeat split; cbn [maps elements document window_L timers now with_maps]; try done.
    + by rewrite !length_app.
    + intros i Hi. cbn [p_map pk] in Hi.
      destruct (decide (i < length ms)) as [Hlt|Hge].
      * by rewrite !lookup_app_l.
      * rewrite !lookup_app_r by lia.
        destruct (i - length ms) as [|k] eqn:Hk; [lia|done].
Qed.

(** X8. The picker touches nothing but its own: a call that passes the
    guard adds one map instance and writes at most the values of its two
    fields; after that, any run of clicks and drag ends leaves the
    document, the timers, the other map instances, every other element and
    every class list as they were. The map keeps its one draggable marker
    at the position of the last event, shows that position, and keeps the
    zoom it was configured with. *)
Theorem picker_touches_only_its_own (o : options) (w : world) (el : nat) :
  document w !! mapId o = Some el -> window_L w = true ->
  exists pk w1,
    initPickerMap o w = (Normal (Some pk), w1)
    /\ p_map pk = length (maps w)
    /\ p_latInput pk = document w !! id_text (latInputId o)
    /\ p_lngInput pk = document w !! id_text (lngInputId o)
    /\ only_picker_changed pk
         (with_maps (fun ms => ms ++ [mkLmap (mapId o) [] []]) w) w1
    /\ forall evs, exists w2,
         handle_all pk evs w1 = (Normal tt, w2)
         /\ only_picker_changed pk w1 w2
         /\ follows Number_toString pk (default default_zoom (zoom o))
              (last_position (default default_startLat (startLat o),
                              default default_startLng (startLng o)) evs) w2.
Proof.
  intros Hel HL.
  destruct (initPickerMap_follows o w el Hel HL) as (w1 & Hrun & Hf & Hframe).
  eexists _, w1. split; [exact Hrun|].
  split; [done|]. split; [done|]. split; [done|]. split; [exact Hframe|].
  intros evs. destruct (handle_all_follows _ _ evs _ _ Hf) as (w2 & Hrun2 & Hf2 & Hframe2).
  by exists w2.
Qed.

(** X9. A picker whose two field identifiers name no element writes
    nothing: neither the call nor any later click or drag end changes any
    element of the page, while the marker and the view still follow. *)
Theorem picker_without_fields_writes_nothing (o : options) (w : world) (el : nat) :
  document w !! mapId o = Some el -> window_L w = true ->
  document w !! id_text (latInputId o) = None ->
  document w !! id_text (lngInputId o) = None ->
  exists pk w1,
    initPickerMap o w = (Normal (Some pk), w1)
    /\ elements w1 = elements w
    /\ forall evs, exists w2,
         handle_all pk evs w1 = (Normal tt, w2)
         /\ elements w2 = elements w
         /\ exists mp mk,
              maps w2 !! p_map pk = Some mp
              /\ lm_layers mp = [osm_tiles; MarkerLayer mk]
              /\ mk_latlng mk
                 = last_position (default default_startLat (startLat o),
                                  default default_startLng (startLng o)) evs
              /\ v_center (lm_view mp) = CenterAt (mk_latlng mk).
Proof.
  intros Hel HL Hlat Hlng.
  destruct (initPickerMap_follows o w el Hel HL) as (w1 & Hrun & Hf & Hframe).
  rewrite Hlat, Hlng in *.
  assert (Hsame : forall pk' wa wb, p_latInput pk' = None -> p_lngInput pk' = None ->
            only_picker_changed pk' wa wb -> elements wb = elements wa).
  { intros pk' wa wb Ha Hb (_ & _ & _ & _ & _ & _ & Hels & _).
    apply map_eq. intros i. apply Hels; congruence. }
  eexists _, w1. split; [exact Hrun|].
  assert (H1 : elements w1 = elements w).
  { apply Hsame in Hframe; [|done|done]. rewrite Hframe. by destruct w. }
  split; [exact H1|].
  intros evs. destruct (handle_all_follows _ _ evs _ _ Hf) as (w2 & Hrun2 & Hf2 & Hframe2).
  exists w2. split; [done|].
  split; [apply Hsame in Hframe2; [congruence|done|done]|].
  destruct Hf2 as (mp & mk & Hmp & Hls & _ & _ & Hpos & Hview & _).
  exists mp, mk. rewrite Hview, Hpos. by repeat split.
Qed.

(** X10. When the two field identifiers name the same element, that
    element ends up with the longitude: each update writes the latitude
    and then overwrites it, so after the call and after any run of events
    the element's value is the longitude of the marker; its classes are
    kept. *)
Theorem picker_one_field_holds_longitude
    (o : options) (w : world) (el a : nat) (elt : element) :
  document w !! mapId o = Some el -> window_L w = true ->
  document w !! id_text (latInputId o) = Some a ->
  document w !! id_text (lngInputId o) = Some a ->
  elements w !! a = Some elt ->
  exists pk w1,
    initPickerMap o w = (Normal (Some pk), w1)
    /\ forall evs, exists w2,
         handle_all pk evs w1 = (Normal tt, w2)
         /\ elements w2 !! a
            = Some (Element
                      (toFixed (snd (last_position
                                       (default default_startLat (startLat o),
                                        default default_startLng (startLng o)) evs)) 6)
                      (el_classList elt)).
Proof.
  intros Hel HL Hlat Hlng Helt.
  destruct (initPickerMap_follows o w el Hel HL) as (w1 & Hrun & Hf & Hframe).
  rewrite Hlat, Hlng in *.
  eexists _, w1. split; [exact Hrun|].
  intros evs. destruct (handle_all_follows _ _ evs _ _ Hf) as (w2 & Hrun2 & Hf2 & Hframe2).
  exists w2. split; [done|].
  destruct Hframe as (_ & _ & _ & _ & _ & _ & _ & Hcl1).
  destruct Hframe2 as (_ & _ & _ & _ & _ & _ & _ & Hcl2).
  specialize (Hcl1 a). specialize (Hcl2 a).
  rewrite Hcl1 in Hcl2. destruct w as [d e L ms ts n].
  cbn [with_maps elements] in Hcl2. cbn [elements] in Helt. rewrite Helt in Hcl2.
  destruct (elements w2 !! a) as [elt2|] eqn:Helt2; [|done].
  destruct Hf2 as (_ & _ & _ & _ & _ & _ & _ & _ & Hval & _).
  specialize (Hval a elt2 eq_refl Helt2).
  destruct elt2 as [v cls]. cbn in Hcl2, Hval. by simplify_eq.
Qed.

(** ** What the fields can be read back as *)

Lemma digit_not_minus (c : ascii) : is_digit c = true -> Ascii.eqb c "-" = false.
Proof.
  destruct c as [[] [] [] [] [] [] [] []]; intros H; vm_compute in H;
    first [discriminate H | reflexivity].
Qed.

Lemma digit_not_point (c : ascii) : is_digit c = true -> c <> "."%char.
Proof.
  destruct c as [[] [] [] [] [] [] [] []]; intros H; vm_compute in H;
    first [discriminate H | discriminate].
Qed.

Lemma filter_digits (l : list ascii) :
  forallb is_digit l = true -> filter (fun c => c <> "."%char) l = l.
Proof.
  induction l as [|c l IH]; [done|].
  cbn [forallb]. intros [Hc Hl]%andb_true_iff.
  rewrite filter_cons_True by (by apply digit_not_point). by rewrite IH.
Qed.

Lemma read_padded (k : nat) (u : Decimal.uint) :
  exists u',
    NilEmpty.uint_of_string
      (string_of_list_ascii
         (replicate k "0"%char ++ list_ascii_of_string (NilEmpty.string_of_uint u)))
    = Some u'
    /\ N.of_uint u' = N.of_uint u.
Proof.
  induction k as [|k (u' & Hread & Hval)].
  - exists u. cbn [replicate app].
    by rewrite string_of_list_ascii_of_string, NilEmpty.usu.
  - exists (Decimal.D0 u'). cbn [replicate app string_of_list_ascii].
    cbn [NilEmpty.uint_of_string]. rewrite Hread. by split.
Qed.

Lemma millionths_point_before_last (n : Z) :
  (0 <= n)%Z -> millionths (point_before_last 6 n) = Some n.
Proof.
  intros Hn. unfold point_before_last. cbn [Nat.eqb].
  set (m := decimal_digits n).
  assert (Hm : forallb is_digit m = true) by apply uint_digits.
  set (m' := if (length m <=? 6)%nat
             then replicate (6 + 1 - length m) "0"%char ++ m else m).
  assert (Hpad : exists k, m' = replicate k "0"%char ++ m).
  { unfold m'. destruct (length m <=? 6)%nat; [by eexists|by exists 0%nat]. }
  assert (Hlen : 7 <= length m').
  { unfold m'. destruct (Nat.leb_spec (length m) 6).
    - rewrite length_app, length_replicate. lia.
    - lia. }
  assert (Hdig : forallb is_digit m' = true).
  { unfold m'. destruct (length m <=? 6)%nat; [|done].
    by rewrite forallb_app, forallb_replicate_zero, Hm. }
  assert (Hsplit : take (length m' - 6) m' ++ drop (length m' - 6) m' = m')
    by apply take_drop.
  destruct (take (length m' - 6) m') as [|c0 a] eqn:Htake.
  { apply (f_equal length) in Htake. rewrite length_take in Htake.
    simpl in Htake. lia. }
  assert (Hc0 : is_digit c0 = true).
  { rewrite <- Hsplit in Hdig. cbn [app forallb] in Hdig.
    by apply andb_true_iff in Hdig as [? _]. }
  unfold millionths. cbn [app string_of_list_ascii].
  rewrite (digit_not_minus _ Hc0).
  change (String c0 (string_of_list_ascii (a ++ "."%char :: drop (length m' - 6) m')))
    with (string_of_list_ascii ((c0 :: a) ++ "."%char :: drop (length m' - 6) m')).
  rewrite list_ascii_of_string_of_list_ascii.
  rewrite filter_app.
  rewrite (filter_cons_False _ "."%char) by (intros H; by apply H).
  rewrite <- filter_app, Hsplit, (filter_digits _ Hdig).
  destruct Hpad as [k ->]. unfold m, decimal_digits.
  destruct (read_padded k (N.to_uint (Z.to_N n))) as (u' & -> & Hval).
  cbn [fmap option_fmap option_map]. rewrite Hval, DecimalN.Unsigned.of_to.
  by rewrite Z2N.id.
Qed.

Lemma nearest_scaled_nonneg (m : positive) (e : Z) :
  (0 <= nearest_scaled m e 6)%Z.
Proof.
  unfold nearest_scaled. destruct (0 <=? e)%Z eqn:He.
  - apply Z.leb_le in He.
    assert (0 < 2 ^ e)%Z by (apply Z.pow_pos_nonneg; lia). nia.
  - apply Z.leb_gt in He.
    assert (0 < 2 ^ (- e))%Z by (apply Z.pow_pos_nonneg; lia).
    apply Z.div_pos; nia.
Qed.

Lemma millionths_minus (s : string) :
  (forall c s', s = String c s' -> Ascii.eqb c "-" = false) ->
  millionths (String "-" s) = Z.opp <$> millionths s.
Proof.
  intros Hfirst. unfold millionths. cbn [Ascii.eqb Bool.eqb].
  destruct s as [|c s']; [reflexivity|].
  rewrite (Hfirst c s' eq_refl).
  by destruct (NilEmpty.uint_of_string _).
Qed.

Lemma point_before_last_first (n : Z) (c : ascii) (s' : string) :
  point_before_last 6 n = String c s' -> Ascii.eqb c "-" = false.
Proof.
  destruct (point_before_last_shape n) as (a & b & -> & Ha & _ & Hd).
  destruct a as [|c0 a]; [done|]. cbn [app string_of_list_ascii forallb] in *.
  intros [= <- _]. apply digit_not_minus.
  by apply andb_true_iff in Hd as [? _].
Qed.

Lemma nearest_scaled_half (m : positive) (e : Z) :
  (Qabs (inject_Z (nearest_scaled m e 6)
         - (if (0 <=? e)%Z then Qmake (Z.pos m * 2 ^ e) 1
            else Qmake (Z.pos m) (Z.to_pos (2 ^ (- e))))
           * inject_Z 1000000) <= 1 # 2)%Q.
Proof.
  unfold nearest_scaled. destruct (0 <=? e)%Z eqn:He.
  - unfold Qle, Qabs, Qminus, Qplus, Qmult, Qopp, inject_Z. cbn.
    lia.
  - apply Z.leb_gt in He.
    assert (Hd : (0 < 2 ^ (- e))%Z) by (apply Z.pow_pos_nonneg; lia).
    set (dd := (2 ^ (- e))%Z) in *.
    set (num := (Z.pos m * 10 ^ Z.of_nat 6)%Z).
    pose proof (Z.div_mod (2 * num + dd) (2 * dd) ltac:(lia)) as Hdiv.
    pose proof (Z.mod_pos_bound (2 * num + dd) (2 * dd) ltac:(lia)) as Hmod.
    set (q := ((2 * num + dd) / (2 * dd))%Z) in *.
    unfold Qle, Qabs, Qminus, Qplus, Qmult, Qopp, inject_Z.
    cbn [Qnum Qden]. rewrite !Pos.mul_1_r, !Pos.mul_1_l.
    rewrite Z2Pos.id by lia. fold dd.
    change (10 ^ Z.of_nat 6)%Z with 1000000%Z in num.
    nia.
Qed.

(** X11. What [toFixed(6)] writes for a finite number below [10^21] in
    magnitude can be read back, and what is read back is the number to
    within half a millionth: the digits of the text, taken with its sign as
    a count of millionths, differ from a million times the number by at
    most one half. *)
Theorem toFixed_within_half_a_millionth (x : float) :
  plain_range x = true ->
  exists k : Z,
    millionths (toFixed x 6) = Some k
    /\ (Qabs (inject_Z k - rational x * inject_Z 1000000) <= 1 # 2)%Q.
Proof.
  unfold plain_range, toFixed, rational.
  destruct (Prim2SF x) as [s | s | | s m e]; try done.
  - intros _. exists 0%Z. split; [by apply millionths_point_before_last|done].
  - intros Hr. apply negb_true_iff in Hr. rewrite Hr.
    pose proof (nearest_scaled_nonneg m e) as Hn.
    pose proof (nearest_scaled_half m e) as Hhalf.
    set (n := nearest_scaled m e 6) in *.
    set (v := if (0 <=? e)%Z then Qmake (Z.pos m * 2 ^ e) 1
              else Qmake (Z.pos m) (Z.to_pos (2 ^ (- e)))) in *.
    destruct s.
    + exists (- n)%Z. split.
      * cbn [String.append]. rewrite millionths_minus.
        -- by rewrite millionths_point_before_last.
        -- intros c s' Heq. by eapply point_before_last_first.
      * assert (Heq : (inject_Z (- n) - - v * inject_Z 1000000
                       == - (inject_Z n - v * inject_Z 1000000))%Q).
        { rewrite inject_Z_opp. ring. }
        by rewrite Heq, Qabs_opp.
    + exists n. split; [|done].
      cbn [String.append]. by apply millionths_point_before_last.
Qed.

End MoreHostFacts.

(** ** More on the timer of [autoHide] *)

Lemma run_autoHide_visible (id : string) (ms : N) (w : world) (box : nat)
    (elt : element) :
  document w !! id = Some box -> elements w !! box = Some elt ->
  ~ ("hidden" ∈ el_classList elt) ->
  autoHide id ms w
  = (Normal tt,
     with_timers (insert_timer (Timer (now w + ms) (AddClass box "hidden"))) w).
Proof.
  intros Hbox Helt Hcls. unfold autoHide.
  rewrite (run_bind _ _ _ _ _ (run_getElementById _ _)). rewrite Hbox.
  assert (Hcontains : classList_contains box "hidden" w
            = (Normal (bool_decide ("hidden" ∈ el_classList elt)), w)).
  { unfold classList_contains. rewrite (run_bind _ _ _ _ _ (run_get _)).
    by rewrite Helt. }
  rewrite (run_bind _ _ _ _ _ Hcontains).
  by rewrite bool_decide_eq_false_2.
Qed.

Lemma run_callback_value (cb : callback) (box : nat) (elt : element) (w : world) :
  elements w !! box = Some elt ->
  exists elt', elements (run_callback cb w) !! box = Some elt'
               /\ el_value elt' = el_value elt
               /\ (forall c, c ∈ el_classList elt -> c ∈ el_classList elt')
               /\ (forall c, c ∈ el_classList elt' ->
                      c ∈ el_classList elt \/ c = "hidden" \/
                      exists b, cb = AddClass b c).
Proof.
  destruct cb as [box' cls]. destruct w as [d e L ms ts n]. simpl.
  intros Helt. destruct (decide (box' = box)) as [->|Hne].
  - rewrite lookup_alter_eq, Helt. eexists. split; [done|]. simpl.
    split; [done|]. split.
    + intros c Hc. apply elem_of_add_token. by right.
    + intros c [->|Hc]%elem_of_add_token; [|by left].
      right. right. by eexists.
  - rewrite lookup_alter_ne by done. exists elt. by repeat split; auto.
Qed.

Lemma foldl_callbacks_value (l : list timer) (box : nat) (elt : element) (w : world) :
  elements w !! box = Some elt ->
  exists elt',
    elements (foldl (fun w tm => run_callback (tm_callback tm) w) w l) !! box = Some elt'
    /\ el_value elt' = el_value elt
    /\ (forall c, c ∈ el_classList elt -> c ∈ el_classList elt').
Proof.
  revert w elt. induction l as [|tm l IH]; intros w elt Helt.
  - exists elt. by repeat split.
  - simpl. destruct (run_callback_value (tm_callback tm) box elt w Helt)
      as (elt1 & Helt1 & Hval1 & Hsub1 & _).
    destruct (IH _ _ Helt1) as (elt2 & Helt2 & Hval2 & Hsub2).
    exists elt2. split; [done|]. split; [congruence|]. auto.
Qed.

(** X12. Calling [autoHide] twice for the same visible element sets two
    timers (the second call does not see the first), and still hides the
    element once: before the delay is over the element is untouched and
    both timers are pending; from then on the class list holds [hidden] one
    time and no timer is left. (On a page with no other timer.) *)
Theorem autoHide_twice_hides_once (id : string) (ms : N) (w : world)
    (box : nat) (elt : element) :
  document w !! id = Some box -> elements w !! box = Some elt ->
  ~ ("hidden" ∈ el_classList elt) -> timers w = [] ->
  let tm := Timer (now w + ms) (AddClass box "hidden") in
  let w2 := with_timers (fun _ => [tm; tm]) w in
  autoHide_twice id ms w = (Normal tt, w2)
  /\ (forall t, (t < now w + ms)%N ->
        elements (advance_to t w2) = elements w
        /\ timers (advance_to t w2) = [tm; tm])
  /\ (forall t, (now w + ms <= t)%N ->
        elements (advance_to t w2)
        = <[box := Element (el_value elt) (el_classList elt ++ ["hidden"])]> (elements w)
        /\ timers (advance_to t w2) = []).
Proof.
  intros Hbox Helt Hcls Hnil. cbn zeta.
  destruct w as [d e L ms' ts n]. cbn [timers document elements now] in *. subst ts.
  split; [|split].
  - unfold autoHide_twice.
    erewrite run_bind by (by eapply run_autoHide_visible).
    erewrite run_autoHide_visible; [|done..].
    unfold with_timers. cbn [insert_timer timers tm_due document elements window_L maps now].
    by rewrite N.ltb_irrefl.
  - intros t Ht. unfold advance_to, with_timers.
    cbn [timers document elements window_L maps now].
    rewrite !filter_cons, !filter_nil. cbn [tm_due].
    rewrite !(decide_False (P := (n + ms <= t)%N)) by lia.
    by rewrite !(decide_True (P := ¬ (n + ms <= t)%N)) by lia.
  - intros t Ht. unfold advance_to, with_timers.
    cbn [timers document elements window_L maps now].
    rewrite !filter_cons, !filter_nil. cbn [tm_due].
    rewrite !(decide_True (P := (n + ms <= t)%N)) by lia.
    rewrite !(decide_False (P := ¬ (n + ms <= t)%N)) by lia.
    split; [|done]. cbn.
    apply map_eq. intros i. destruct (decide (i = box)) as [->|Hne].
    + rewrite !lookup_alter_eq, lookup_insert_eq, Helt. cbn.
      unfold add_token at 2. rewrite bool_decide_eq_false_2 by done.
      unfold add_token. rewrite bool_decide_eq_true_2; [done|].
      apply elem_of_app. right. by apply list_elem_of_singleton.
    + by rewrite !lookup_alter_ne, lookup_insert_ne.
Qed.

(** X13. The timer's callback holds the element itself and looks at
    nothing: whatever became of the document index and of the element's
    value and classes between the call of [autoHide] and the time the timer
    fires, the element then gets the class [hidden], keeps its value and
    keeps the classes it had. *)
Theorem autoHide_hides_whatever_changed (id : string) (ms : N) (w : world)
    (box : nat) (elt : element)
    (d' : gmap string nat) (e' : gmap nat element) (elt' : element) (t : N) :
  document w !! id = Some box -> elements w !! box = Some elt ->
  ~ ("hidden" ∈ el_classList elt) ->
  e' !! box = Some elt' -> (now w + ms <= t)%N ->
  exists w1,
    autoHide id ms w = (Normal tt, w1)
    /\ exists elt2,
         elements (advance_to t (World d' e' (window_L w1) (maps w1) (timers w1) (now w1)))
           !! box = Some elt2
         /\ "hidden" ∈ el_classList elt2
         /\ el_value elt2 = el_value elt'
         /\ (forall c, c ∈ el_classList elt' -> c ∈ el_classList elt2).
Proof.
  intros Hbox Helt Hcls Helt' Ht.
  eexists. split; [by eapply run_autoHide_visible|].
  set (tm := Timer (now w + ms) (AddClass box "hidden")).
  set (w' := World d' e' _ _ _ _).
  assert (Hin : tm ∈ filter (fun tm0 => (tm_due tm0 <= t)%N) (timers w')).
  { apply list_elem_of_filter. split; [done|].
    destruct w. apply elem_of_insert_timer. by left. }
  unfold advance_to.
  set (w0 := with_now _ _).
  assert (Hw0 : elements w0 !! box = Some elt') by done.
  destruct (foldl_callbacks_value (filter (fun tm0 => (tm_due tm0 <= t)%N) (timers w'))
              box elt' w0 Hw0) as (elt2 & Helt2 & Hval & Hsub).
  exists elt2. split; [done|]. split; [|by split].
  destruct (foldl_adds_class _ (now w + ms) box "hidden" w0 Hin)
    as (elt3 & Helt3 & Hhid); [by rewrite Hw0|].
  congruence.
Qed.

(** ** The autofocus *)

Lemma node_nested_ind (P : node -> Prop) :
  (forall tag attrs kids, Forall P kids -> P (Node tag attrs kids)) ->
  forall n, P n.
Proof.
  intros Hnode. fix IH 1. intros [tag attrs kids]. apply Hnode.
  induction kids as [|k kids IHkids]; constructor; [apply IH|exact IHkids].
Qed.

Lemma query_form_control_node (f : bool) (tag : string)
    (attrs : list (string * string)) (kids : list node) :
  query_form_control f (Node tag attrs kids)
  = if f && is_form_control tag then Some []
    else among_children (f || is_form tag) kids.
Proof. reflexivity. Qed.

Lemma query_form_control_first (n : node) (f : bool) :
  match query_form_control f n with
  | Some p =>
      matches_form_control f n p = true
      /\ forall q, matches_form_control f n q = true ->
                   q = p \/ doc_before p q = true
  | None => forall q, matches_form_control f n q = false
  end.
Proof.
  revert f. induction n as [tag attrs kids IH] using node_nested_ind. intros f.
  rewrite query_form_control_node.
  destruct (f && is_form_control tag) eqn:Hc.
  { split; [exact Hc|]. intros [|j q'] _; [by left|by right]. }
  set (f' := f || is_form tag).
  assert (Hamong :
    match among_children f' kids with
    | Some p =>
        exists i p' k, p = i :: p' /\ kids !! i = Some k
          /\ matches_form_control f' k p' = true
          /\ (forall q, matches_form_control f' k q = true ->
                q = p' \/ doc_before p' q = true)
          /\ (forall j k', j < i -> kids !! j = Some k' ->
                forall q, matches_form_control f' k' q = false)
    | None => forall j k', kids !! j = Some k' ->
                forall q, matches_form_control f' k' q = false
    end).
  { clear Hc. induction kids as [|k ks IHks]; [by intros j k' Hj|].
    apply Forall_cons in IH as [Hk Hks]. specialize (IHks Hks).
    cbn [among_children]. specialize (Hk f').
    destruct (query_form_control f' k) as [p|].
    - destruct Hk as [Hm Hfirst]. exists 0%nat, p, k.
      repeat split; try done. intros j k' Hj. lia.
    - fold (among_children f' ks).
      destruct (among_children f' ks) as [[|i p]|].
      + by destruct IHks as (i & p' & k0 & Heq & _).
      + destruct IHks as (i0 & p' & k0 & [= -> ->] & Hk0 & Hm & Hfirst & Hbefore).
        exists (S i0), p', k0. repeat split; try done.
        intros [|j] k' Hj Hjk q; [by simplify_eq/=|].
        apply (Hbefore j k'); [lia|done].
      + intros [|j] k' Hjk q; [by simplify_eq/=|]. by apply (IHks j k'). }
  destruct (among_children f' kids) as [p|].
  - destruct Hamong as (i & p' & k & -> & Hk & Hm & Hfirst & Hbefore).
    split.
    + cbn [matches_form_control node_children node_tag]. by rewrite Hk.
    + intros [|j q']; cbn [matches_form_control node_children node_tag].
      { rewrite Hc. discriminate. }
      destruct (kids !! j) as [k'|] eqn:Hj; [|discriminate].
      fold f'. intros Hq. cbn [doc_before].
      destruct (Nat.lt_trichotomy j i) as [Hlt | [-> | Hgt]].
      * by rewrite (Hbefore j k' Hlt Hj q') in Hq.
      * assert (k' = k) as -> by congruence.
        destruct (Hfirst q' Hq) as [-> | Hdoc]; [by left|].
        right. rewrite Nat.eqb_refl, Hdoc. by rewrite orb_true_r.
      * right. apply orb_true_iff. left. by apply Nat.ltb_lt.
  - intros [|j q']; cbn [matches_form_control node_children node_tag]; [done|].
    destruct (kids !! j) as [k'|] eqn:Hj; [|done]. by apply (Hamong j k').
Qed.

Lemma doc_before_irrefl (p : list nat) : doc_before p p = false.
Proof.
  induction p as [|i p IH]; [done|].
  cbn [doc_before]. by rewrite Nat.ltb_irrefl, Nat.eqb_refl, IH.
Qed.

Lemma doc_before_asym (p q : list nat) :
  doc_before p q = true -> doc_before q p = false.
Proof.
  revert q. induction p as [|i p IH]; intros [|j q]; cbn [doc_before]; try done.
  intros [Hlt | [Heq Hpq]%andb_true_iff]%orb_true_iff.
  - apply Nat.ltb_lt in Hlt. apply orb_false_iff. split.
    + apply Nat.ltb_ge. lia.
    + apply andb_false_iff. left. apply Nat.eqb_neq. lia.
  - apply Nat.eqb_eq in Heq as ->.
    by rewrite Nat.ltb_irrefl, Nat.eqb_refl, (IH _ Hpq).
Qed.

(** X15. The autofocus calls [focus()] at most once, on the first form
    control below a form in document order, and on nothing else: if the
    page has no input, select or textarea with a form among its ancestors
    nothing is called and the focus stays where it was; otherwise
    [focus()] is called on the one that comes before all the others (a
    control outside every form is passed over) and on no later one. The
    focus is on that element afterwards exactly when the browser moved it
    there; when the element cannot take the focus, and when the call
    throws, the focus stays where it was. *)
Theorem autofocus_first_form_control (focus : list nat -> focus_outcome)
    (tree : node) (active : option (list nat)) :
  ((forall q, matches_form_control false tree q = false) ->
   autofocus focus tree active = ([], active))
  /\ (forall p,
        matches_form_control false tree p = true ->
        (forall q, matches_form_control false tree q = true ->
                   q = p \/ doc_before p q = true) ->
        autofocus focus tree active
        = ([p], match focus p with
                | Focused => Some p
                | NotFocusable | FocusThrows => active
                end)).
Proof.
  pose proof (query_form_control_first tree false) as Hq.
  unfold autofocus. split.
  - intros Hnone. destruct (query_form_control false tree) as [p|]; [|done].
    destruct Hq as [Hm _]. by rewrite Hnone in Hm.
  - intros p Hp Hfirst. destruct (query_form_control false tree) as [p'|].
    + destruct Hq as [Hp' Hfirst'].
      assert (p' = p) as ->.
      { destruct (Hfirst p' Hp') as [->|Hdoc]; [done|].
        destruct (Hfirst' p Hp) as [->|Hdoc']; [done|].
        by rewrite (doc_before_asym _ _ Hdoc) in Hdoc'. }
      by destruct (focus p).
    + by rewrite Hq in Hp.
Qed.

(** ** The click listener *)

(** The chain the listener walks is the target followed by its ancestors:
    its entry [i] is the element [i] levels above the target. *)
Lemma chain_to_levels (n : node) (p : list nat) (above chain : list node) :
  chain_to n p above = Some chain ->
  exists front,
    chain = front ++ above
    /\ length front = S (length p)
    /\ forall i, i <= length p ->
         front !! i = node_at n (take (length p - i) p).
Proof.
  revert n above chain. induction p as [|i0 p IH]; intros n above chain.
  - intros [= <-]. exists [n]. split; [done|]. split; [done|].
    intros i Hi. simpl in Hi. by replace i with 0%nat by lia.
  - cbn [chain_to]. destruct (node_children n !! i0) as [k|] eqn:Hk; [|done].
    cbn [mbind option_bind]. intros Hchain.
    destruct (IH _ _ _ Hchain) as (front & -> & Hlen & Hlevels).
    exists (front ++ [n]). split; [by rewrite <- app_assoc|].
    split; [rewrite length_app; simpl; lia|].
    intros i Hi. cbn [length] in Hi.
    destruct (decide (i <= length p)) as [Hle|Hgt].
    + rewrite lookup_app_l by lia. rewrite (Hlevels i Hle).
      replace (length (i0 :: p) - i) with (S (length p - i)) by (simpl; lia).
      cbn [take node_at]. by rewrite Hk.
    + assert (i = S (length p)) as -> by lia.
      rewrite lookup_app_r by lia. rewrite Hlen, Nat.sub_diag.
      cbn [length]. by rewrite Nat.sub_diag.
Qed.

Lemma chain_to_exists (n : node) (p : list nat) (above : list node) (el : node) :
  node_at n p = Some el -> exists chain, chain_to n p above = Some chain.
Proof.
  revert n above. induction p as [|i0 p IH]; intros n above; [by eexists|].
  cbn [node_at chain_to]. destruct (node_children n !! i0) as [k|]; [|done].
  cbn [mbind option_bind]. apply IH.
Qed.

Lemma closest_confirm_first (chain : list node) (i : nat) (el : node) :
  chain !! i = Some el -> has_confirm el = true ->
  (forall j n, j < i -> chain !! j = Some n -> has_confirm n = false) ->
  closest_confirm chain = Some el.
Proof.
  revert i. induction chain as [|n chain IH]; intros [|i] Hi Hel Hbefore;
    simplify_eq/=.
  - by rewrite Hel.
  - rewrite (Hbefore 0%nat n) by (done || lia).
    apply (IH i); [done..|]. intros j n' Hj Hn'. apply (Hbefore (S j)); [lia|done].
Qed.

Lemma closest_confirm_none (chain : list node) :
  (forall j n, chain !! j = Some n -> has_confirm n = false) ->
  closest_confirm chain = None.
Proof.
  induction chain as [|n chain IH]; intros Hnone; [done|].
  cbn [closest_confirm]. rewrite (Hnone 0%nat n) by done.
  apply IH. intros j n' Hn'. by apply (Hnone (S j)).
Qed.

(** X14. The click listener asks at most one question per click, that of
    the innermost element carrying the prompt attribute on the way from
    the target up to the root: prompts further out are not shown, and an
    empty attribute gives the default prompt. The click is cancelled (its
    default action prevented and its propagation stopped, both) exactly
    when the user declines; when the user accepts, and when no element on
    the way carries the attribute (then nothing is asked), the event is
    left as it was. *)
Theorem click_asks_innermost_prompt (confirm : string -> bool) (tree : node)
    (e : click) (target_el : node) :
  node_at tree (target e) = Some target_el ->
  ((forall j n, j <= length (target e) ->
      node_at tree (take (length (target e) - j) (target e)) = Some n ->
      has_confirm n = false) ->
   on_click confirm tree e = ([], e))
  /\ (forall i el,
        i <= length (target e) ->
        node_at tree (take (length (target e) - i) (target e)) = Some el ->
        has_confirm el = true ->
        (forall j n, j < i ->
           node_at tree (take (length (target e) - j) (target e)) = Some n ->
           has_confirm n = false) ->
        on_click confirm tree e
        = ([prompt_of el],
           if confirm (prompt_of el) then e else Click (target e) true true)
        /\ (getAttribute (node_attrs el) "data-confirm" = Some EmptyString ->
            prompt_of el = default_prompt)
        /\ (forall msg, getAttribute (node_attrs el) "data-confirm" = Some msg ->
            msg <> EmptyString -> prompt_of el = msg)).
Proof.
  intros Htarget.
  destruct (chain_to_exists tree (target e) [] target_el Htarget) as [chain Hchain].
  destruct (chain_to_levels _ _ _ _ Hchain) as (front & -> & Hlen & Hlevels).
  rewrite app_nil_r in Hchain.
  unfold on_click. rewrite Hchain. cbn [mbind option_bind].
  split.
  - intros Hnone. rewrite closest_confirm_none; [done|].
    intros j n Hj. assert (j <= length (target e)).
    { apply lookup_lt_Some in Hj. lia. }
    apply (Hnone j n); [done|]. by rewrite <- Hlevels.
  - intros i el Hi Hel Hconfirm Hbefore.
    rewrite (closest_confirm_first front i el).
    + split; [by destruct (confirm (prompt_of el))|].
      unfold prompt_of. split.
      * by intros ->.
      * intros msg -> Hmsg. by apply String.eqb_neq in Hmsg as ->.
    + by rewrite Hlevels.
    + done.
    + intros j n Hj Hn. apply (Hbefore j n Hj). rewrite <- Hlevels by lia. done.
Qed.

(** ** Two edges of the picker's fields *)

(** X16. A negative number that rounds to zero keeps its sign in the
    field: for every number strictly between minus half a millionth and
    zero, [toFixed(6)] writes -0.000000. *)
Theorem toFixed_negative_zero (h : float -> string) (x : float) :
  (- (1 # 2000000) < rational x)%Q -> (rational x < 0)%Q ->
  toFixed h x 6 = "-0.000000".
Proof.
  unfold rational, toFixed.
  destruct (Prim2SF x) as [s | s | | s m e]; try (intros _ H; by vm_compute in H).
  destruct s; cycle 1.
  { intros _ H. exfalso. revert H.
    destruct (0 <=? e)%Z eqn:He; unfold Qlt; cbn [Qnum Qden].
    - apply Z.leb_le in He.
      assert (0 < 2 ^ e)%Z by (apply Z.pow_pos_nonneg; lia). nia.
    - lia. }
  destruct (0 <=? e)%Z eqn:He.
  { intros H _. exfalso. revert H. apply Z.leb_le in He.
    assert (0 < 2 ^ e)%Z by (apply Z.pow_pos_nonneg; lia).
    unfold Qlt. cbn [Qnum Qden Qopp]. nia. }
  apply Z.leb_gt in He.
  assert (Hd : (0 < 2 ^ (- e))%Z) by (apply Z.pow_pos_nonneg; lia).
  intros Hlow _. revert Hlow. unfold Qlt. cbn [Qnum Qden Qopp].
  rewrite Z2Pos.id by lia. intros Hlow.
  assert (Hsmall : at_least_1e21 m e = false).
  { unfold at_least_1e21. apply Z.leb_gt in He as ->. apply Z.leb_gt. nia. }
  assert (Hzero : nearest_scaled m e 6 = 0%Z).
  { unfold nearest_scaled. apply Z.leb_gt in He as ->.
    change (10 ^ Z.of_nat 6)%Z with 1000000%Z.
    apply Z.div_small. lia. }
  rewrite Hsmall, Hzero. reflexivity.
Qed.

(** X17. A field identifier left out is looked up as the text
    [undefined]: if the page happens to have an element with that
    identifier, and the other field is another element, the picker writes
    the coordinate into it, at initialization and after every event. *)
Theorem picker_writes_element_named_undefined
    (h : float -> string) (o : options) (w : world) (el a : nat) (elt : element) :
  document w !! mapId o = Some el -> window_L w = true ->
  latInputId o = None ->
  document w !! "undefined" = Some a ->
  document w !! id_text (lngInputId o) <> Some a ->
  elements w !! a = Some elt ->
  exists pk w1,
    initPickerMap h o w = (Normal (Some pk), w1)
    /\ forall evs, exists w2,
         handle_all h pk evs w1 = (Normal tt, w2)
         /\ elements w2 !! a
            = Some (Element
                      (toFixed h (fst (last_position
                                         (default default_startLat (startLat o),
                                          default default_startLng (startLng o)) evs)) 6)
                      (el_classList elt)).
Proof.
  intros Hel HL Hnone Ha Hother Helt.
  destruct (initPickerMap_follows h o w el Hel HL) as (w1 & Hrun & Hf & Hframe).
  rewrite Hnone in *. cbn [id_text default from_option id] in *. rewrite Ha in *.
  eexists _, w1. split; [exact Hrun|].
  intros evs. destruct (handle_all_follows h _ _ evs _ _ Hf) as (w2 & Hrun2 & Hf2 & Hframe2).
  exists w2. split; [done|].
  destruct Hframe as (_ & _ & _ & _ & _ & _ & _ & Hcl1).
  destruct Hframe2 as (_ & _ & _ & _ & _ & _ & _ & Hcl2).
  specialize (Hcl1 a). specialize (Hcl2 a).
  rewrite Hcl1 in Hcl2. destruct w as [d e L ms ts n].
  cbn [with_maps elements] in Hcl2. cbn [elements] in Helt. rewrite Helt in Hcl2.
  destruct (elements w2 !! a) as [elt2|] eqn:Helt2; [|done].
  destruct Hf2 as (_ & _ & _ & _ & _ & _ & _ & _ & _ & Hval).
  specialize (Hval a elt2 eq_refl Hother Helt2).
  destruct elt2 as [v cls]. cbn in Hcl2, Hval. by simplify_eq.
Qed.

(** * The further properties at work *)

(** X4 at work: markup in the name and the route of a shop. *)
Lemma popup_markup_is_the_templates_witness :
  count_char "<" (popup sample_toString hostile_shop)
  = count_char "<" (popup sample_toString blank).
Proof.
  apply (popup_markup_is_the_templates sample_toString hostile_shop "<"%char);
    [by left|reflexivity|reflexivity].
Defined.

(** C9 at work: descriptors at not-a-number and at the infinities get
    their markers and the view is fitted to them; the descriptor whose
    latitude is text gets none. *)
Lemma numeric_check_is_typeof_witness :
  exists mp,
    initPublicMap sample_toString draws_all bounds_all unusual_options sample_page
    = (Normal tt, with_maps (fun ms => ms ++ [mp]) sample_page)
    /\ mk_latlng <$> omap layer_marker (lm_layers mp)
       = [(nan, infinity); (neg_infinity, 0%float)]
    /\ lm_view mp
       = fitted (BoundsOfPoints [(nan, infinity); (neg_infinity, 0%float)]).
Proof.
  pose proof (numeric_check_is_typeof sample_toString draws_all bounds_all
                unusual_options sample_page 0%nat eq_refl eq_refl) as Hkept.
  cbv zeta in Hkept.
  destruct Hkept as (_ & _ & _ & mp & Hrun & Hmk & Hmany & _).
  exists mp. split; [exact Hrun|]. split.
  - rewrite Hmk. reflexivity.
  - exact (Hmany (le_n 2)).
Defined.

(** X5 at work: two shops and a descriptor without latitude. *)
Lemma one_marker_per_numeric_descriptor_witness :
  exists mp,
    initPublicMap sample_toString draws_all bounds_all
      (public_options [shop 1 2; no_latitude; shop 3 4] VUndef) sample_page
    = (Normal tt, with_maps (fun ms => ms ++ [mp]) sample_page)
    /\ mk_latlng <$> omap layer_marker (lm_layers mp)
       = [(1%float, 2%float); (3%float, 4%float)]
    /\ lm_view mp = fitted (BoundsOfPoints [(1%float, 2%float); (3%float, 4%float)]).
Proof.
  destruct (one_marker_per_numeric_descriptor sample_toString draws_all bounds_all
              (public_options [shop 1 2; no_latitude; shop 3 4] VUndef)
              sample_page 0%nat eq_refl eq_refl)
    as (_ & mp & Hrun & _ & _ & Hpos & _ & Hview).
  cbv zeta in Hview. destruct Hview as (Hmany & _).
  rewrite Hpos in Hmany.
  exists mp. split; [exact Hrun|]. split; [exact Hpos|exact (Hmany (le_n 2))].
Defined.

(** X6 at work: a library that refuses every path. *)
Lemma path_failure_is_contained_witness :
  exists mp,
    initPublicMap sample_toString (fun _ => false) bounds_all
      (public_options [no_latitude] (VArr sample_line)) sample_page
    = (Normal tt, with_maps (fun ms => ms ++ [mp]) sample_page)
    /\ filter (fun l => is_polyline l = true) (lm_layers mp) = []
    /\ lm_views mp = [start_view (public_options [no_latitude] (VArr sample_line))].
Proof.
  destruct (path_failure_is_contained sample_toString (fun _ => false) bounds_all
              (public_options [no_latitude] (VArr sample_line))
              sample_page 0%nat sample_line eq_refl eq_refl eq_refl (le_n 2))
    as (mp & Hrun & Hline & _ & Hview).
  exists mp. split; [exact Hrun|]. split; [exact Hline|].
  exact (proj1 (proj2 (Hview eq_refl)) eq_refl).
Defined.

(** X7 at work: a map in each of the two containers. *)
Lemma second_map_leaves_first_alone_witness :
  exists mp1 mp2,
    (initPublicMap sample_toString draws_all bounds_all
       (public_options [shop 1 2] VUndef) ;;
     initPublicMap sample_toString draws_all bounds_all
       (Options "map2" None None (Some [shop 3 4]) VUndef None None None))
      two_container_page
    = (Normal tt, with_maps (fun ms => ms ++ [mp1; mp2]) two_container_page).
Proof.
  destruct (second_map_leaves_first_alone sample_toString draws_all bounds_all
              (public_options [shop 1 2] VUndef)
              (Options "map2" None None (Some [shop 3 4]) VUndef None None None)
              two_container_page 0%nat 4%nat eq_refl eq_refl
              ltac:(discriminate) eq_refl)
    as (mp1 & mp2 & _ & _ & Hboth).
  exists mp1, mp2. exact Hboth.
Defined.

(** X8 at work: the picker of the sample page after two clicks. *)
Lemma picker_touches_only_its_own_witness :
  exists pk w1 w2,
    initPickerMap sample_toString picker_options sample_page = (Normal (Some pk), w1)
    /\ handle_all sample_toString pk
         [MapClick (-1)%float (-78)%float; MapClick (-2)%float (-79)%float] w1
       = (Normal tt, w2)
    /\ only_picker_changed pk w1 w2
    /\ follows sample_toString pk 6%float ((-2)%float, (-79)%float) w2.
Proof.
  destruct (picker_touches_only_its_own sample_toString picker_options sample_page
              0%nat eq_refl eq_refl)
    as (pk & w1 & Hrun & _ & _ & _ & _ & Hevs).
  destruct (Hevs [MapClick (-1)%float (-78)%float; MapClick (-2)%float (-79)%float])
    as (w2 & Hrun2 & Hframe & Hf).
  exists pk, w1, w2. split; [exact Hrun|]. split; [exact Hrun2|].
  split; [exact Hframe|exact Hf].
Defined.

(** X9 at work: the picker without fields on the sample page. *)
Lemma picker_without_fields_writes_nothing_witness :
  exists pk w1 w2,
    initPickerMap sample_toString no_field_options sample_page = (Normal (Some pk), w1)
    /\ handle_all sample_toString pk [MarkerDragEnd ((-1)%float, (-78)%float)] w1
       = (Normal tt, w2)
    /\ elements w2 = elements sample_page.
Proof.
  destruct (picker_without_fields_writes_nothing sample_toString no_field_options
              sample_page 0%nat eq_refl eq_refl eq_refl eq_refl)
    as (pk & w1 & Hrun & _ & Hevs).
  destruct (Hevs [MarkerDragEnd ((-1)%float, (-78)%float)]) as (w2 & Hrun2 & Hels & _).
  exists pk, w1, w2. split; [exact Hrun|]. split; [exact Hrun2|exact Hels].
Defined.

(** X10 at work: one element for both coordinates. *)
Lemma picker_one_field_holds_longitude_witness :
  exists pk w1 w2,
    initPickerMap sample_toString one_field_options sample_page = (Normal (Some pk), w1)
    /\ handle_all sample_toString pk [MapClick (-1)%float (-78)%float] w1
       = (Normal tt, w2)
    /\ elements w2 !! 1%nat = Some (Element "-78.000000" []).
Proof.
  destruct (picker_one_field_holds_longitude sample_toString one_field_options
              sample_page 0%nat 1%nat (Element EmptyString [])
              eq_refl eq_refl eq_refl eq_refl eq_refl)
    as (pk & w1 & Hrun & Hevs).
  destruct (Hevs [MapClick (-1)%float (-78)%float]) as (w2 & Hrun2 & Hval).
  exists pk, w1, w2. split; [exact Hrun|]. split; [exact Hrun2|exact Hval].
Defined.

(** X11 at work: the default latitude. *)
Lemma toFixed_within_half_a_millionth_witness :
  exists k : Z,
    millionths (toFixed sample_toString default_startLat 6) = Some k
    /\ (Qabs (inject_Z k - rational default_startLat * inject_Z 1000000) <= 1 # 2)%Q.
Proof.
  exact (toFixed_within_half_a_millionth sample_toString default_startLat eq_refl).
Defined.

(** X12 at work: the banner of the sample page, asked to hide twice. *)
Lemma autoHide_twice_hides_once_witness :
  autoHide_twice "successBox" 8000 sample_page
  = (Normal tt,
     with_timers (fun _ => [Timer 8000 (AddClass 3 "hidden");
                            Timer 8000 (AddClass 3 "hidden")]) sample_page)
  /\ elements (advance_to 8000
                 (with_timers (fun _ => [Timer 8000 (AddClass 3 "hidden");
                                         Timer 8000 (AddClass 3 "hidden")]) sample_page))
     = <[3%nat := Element EmptyString ["alert"; "hidden"]]> (elements sample_page).
Proof.
  destruct (autoHide_twice_hides_once "successBox" 8000 sample_page 3%nat
              (Element EmptyString ["alert"]) eq_refl eq_refl) as (Hrun & _ & Hafter).
  { intros Hin. apply elem_of_cons in Hin as [Heq|Hin]; [discriminate Heq|].
    by apply elem_of_nil in Hin. }
  { reflexivity. }
  split; [exact Hrun|]. exact (proj1 (Hafter 8000%N (N.le_refl _))).
Defined.

(** X13 at work: the banner taken out of the document and given another
    value and class before the timer fires. *)
Lemma autoHide_hides_whatever_changed_witness :
  exists w1 elt2,
    autoHide "successBox" 8000 sample_page = (Normal tt, w1)
    /\ elements (advance_to 9000
                   (World ∅ {[ 3%nat := Element "otro texto" ["alert"; "big"] ]}
                          (window_L w1) (maps w1) (timers w1) (now w1)))
         !! 3%nat = Some elt2
    /\ "hidden" ∈ el_classList elt2
    /\ el_value elt2 = "otro texto".
Proof.
  destruct (autoHide_hides_whatever_changed "successBox" 8000 sample_page 3%nat
              (Element EmptyString ["alert"]) ∅
              {[ 3%nat := Element "otro texto" ["alert"; "big"] ]}
              (Element "otro texto" ["alert"; "big"]) 9000%N eq_refl eq_refl)
    as (w1 & Hrun & elt2 & Helt2 & Hhid & Hval & _).
  { intros Hin. apply elem_of_cons in Hin as [Heq|Hin]; [discriminate Heq|].
    by apply elem_of_nil in Hin. }
  { reflexivity. }
  { intros Hle. discriminate Hle. }
  exists w1, elt2. split; [exact Hrun|]. split; [exact Helt2|].
  split; [exact Hhid|exact Hval].
Defined.

(** X14 at work: a click on the label inside the delete button, declined.
    The button's own prompt is empty, so the default one is asked; the
    prompt of the row around it is not. *)
Lemma click_asks_innermost_prompt_witness :
  on_click (fun _ => false) sample_tree (Click [2; 0; 0]%nat false false)
  = ([default_prompt], Click [2; 0; 0]%nat true true).
Proof.
  destruct (proj2 (click_asks_innermost_prompt (fun _ => false) sample_tree
                     (Click [2; 0; 0]%nat false false) (Node "span" [] []) eq_refl)
              1%nat (Node "button" [("data-confirm", EmptyString)] [Node "span" [] []])
              ltac:(cbn; lia) eq_refl eq_refl) as (Hrun & _).
  { intros j n Hj. assert (j = 0%nat) as -> by lia. by intros [= <-]. }
  exact Hrun.
Defined.

(** X15 at work: [focus()] is called on the select inside the form, not
    on the search box before it, outside any form. Where the browser moves
    the focus the select has it; where the select cannot take the focus
    the focus stays where it was, and the input after it is not tried. *)
Lemma autofocus_first_form_control_witness :
  autofocus (fun _ => Focused) sample_tree None
  = ([[1; 0; 1; 0]%nat], Some [1; 0; 1; 0]%nat)
  /\ autofocus select_not_focusable sample_tree (Some [0%nat])
     = ([[1; 0; 1; 0]%nat], Some [0%nat]).
Proof.
  split.
  - apply (proj2 (autofocus_first_form_control (fun _ => Focused) sample_tree None)
             [1; 0; 1; 0]%nat eq_refl).
    apply (query_form_control_first sample_tree false).
  - apply (proj2 (autofocus_first_form_control select_not_focusable
                    sample_tree (Some [0%nat]))
             [1; 0; 1; 0]%nat eq_refl).
    apply (query_form_control_first sample_tree false).
Defined.

(** X16 at work: a tenth of a millionth below zero. *)
Lemma toFixed_negative_zero_witness :
  toFixed sample_toString (-0.0000001)%float 6 = "-0.000000".
Proof.
  apply (toFixed_negative_zero sample_toString (-0.0000001)%float).
  - vm_compute. reflexivity.
  - vm_compute. reflexivity.
Defined.

(** X17 at work: the longitude-only picker on a page with an element
    named [undefined]. *)
Lemma picker_writes_element_named_undefined_witness :
  exists pk w1 w2,
    initPickerMap sample_toString longitude_only_options page_with_undefined
    = (Normal (Some pk), w1)
    /\ handle_all sample_toString pk [MapClick (-1)%float (-78)%float] w1
       = (Normal tt, w2)
    /\ elements w2 !! 4%nat = Some (Element "-1.000000" ["note"]).
Proof.
  destruct (picker_writes_element_named_undefined sample_toString
              longitude_only_options page_with_undefined 0%nat 4%nat
              (Element EmptyString ["note"]) eq_refl eq_refl eq_refl eq_refl)
    as (pk & w1 & Hrun & Hevs).
  { vm_compute. discriminate. }
  { reflexivity. }
  destruct (Hevs [MapClick (-1)%float (-78)%float]) as (w2 & Hrun2 & Hval).
  exists pk, w1, w2. split; [exact Hrun|]. split; [exact Hrun2|exact Hval].
Defined.
